(** * grpc_core promise activities: [src/core/lib/promise/activity.h]

    A shallow embedding of the Wakeable / Waker / AtomicWaker handles, of the
    thread-local current-activity pointer and of the poll loop of
    [promise_detail::PromiseActivity], followed by the properties proved
    about them. *)

From Stdlib Require Import List Bool Arith ZArith Lia.
Import ListNotations.

Set Implicit Arguments.

(** ** Wakeable objects and the calls made on them *)

(** The objects a [Wakeable*] can point at: the process-wide
    [NoDestructSingleton<Unwakeable>] instance, or any other Wakeable
    (an activity, a handle), named by its address. *)
Inductive Wakeable : Type :=
| Unwakeable
| Target (addr : nat).

(** The two virtual methods of [class Wakeable]. *)
Inductive Method : Type := M_Wakeup | M_Drop.

(** One virtual call: receiver and method.  Functions that call through a
    [Wakeable*] return the calls they made, in program order. *)
Definition Call : Type := (Wakeable * Method)%type.

Definition Wakeable_eqb (a b : Wakeable) : bool :=
  match a, b with
  | Unwakeable, Unwakeable => true
  | Target x, Target y => Nat.eqb x y
  | _, _ => false
  end.

Definition Method_eqb (a b : Method) : bool :=
  match a, b with
  | M_Wakeup, M_Wakeup | M_Drop, M_Drop => true
  | _, _ => false
  end.

Module activity_detail.

(** [static Unwakeable* unwakeable()]: the address of the singleton. *)
Definition unwakeable : Wakeable := Unwakeable.

(** [Unwakeable::Wakeup() {}] and [Unwakeable::Drop() {}] have empty
    bodies: what a call changes outside the receiver.  A call on any
    other Wakeable is delivered to that object. *)
Definition delivered (c : Call) : option (nat * Method) :=
  match fst c with
  | Unwakeable => None
  | Target a => Some (a, snd c)
  end.

End activity_detail.

(** The calls of a list that reach an object other than the sentinel. *)
Definition signals (cs : list Call) : list (nat * Method) :=
  flat_map (fun c => match activity_detail.delivered c with
                     | Some s => [s]
                     | None => []
                     end) cs.

(** Number of calls of method [m] received by [p]. *)
Definition received (p : Wakeable) (m : Method) (cs : list Call) : nat :=
  length (filter (fun c => Wakeable_eqb (fst c) p && Method_eqb (snd c) m) cs).

(** [std::exchange(obj, v)]: store [v], return the old value. *)
Definition std_exchange {A : Type} (obj v : A) : A * A := (obj, v).

(** [std::swap(a, b)]. *)
Definition std_swap {A : Type} (a b : A) : A * A := (b, a).

(** ** class Waker *)
Module Waker.

Record t : Type := mk { wakeable_ : Wakeable }.

(** [explicit Waker(Wakeable* wakeable)] *)
Definition ctor (wakeable : Wakeable) : t := mk wakeable.

(** [Waker() : Waker(activity_detail::unwakeable())] *)
Definition default : t := ctor activity_detail.unwakeable.

(** [~Waker() { wakeable_->Drop(); }] *)
Definition dtor (w : t) : list Call := [(wakeable_ w, M_Drop)].

(** [Wakeable* Take()]: the held pointer and the Waker afterwards. *)
Definition Take (w : t) : Wakeable * t :=
  let '(old, new) := std_exchange (wakeable_ w) activity_detail.unwakeable in
  (old, mk new).

(** [Waker(Waker&& other) : wakeable_(other.Take())]: the new Waker and
    [other] afterwards. *)
Definition move_ctor (other : t) : t * t :=
  let '(p, other') := Take other in (mk p, other').

(** [Waker& operator=(Waker&& other)]: [*this] and [other] afterwards. *)
Definition move_assign (this other : t) : t * t :=
  let '(a, b) := std_swap (wakeable_ this) (wakeable_ other) in
  (mk a, mk b).

(** [void Wakeup() { Take()->Wakeup(); }] *)
Definition Wakeup (w : t) : t * list Call :=
  let '(p, w') := Take w in (w', [(p, M_Wakeup)]).

(** [bool operator==(const Waker& other)] *)
Definition eqb (w other : t) : bool :=
  Wakeable_eqb (wakeable_ w) (wakeable_ other).

(** [AbslHashValue(H h, const Waker& w)], for a hash state [H] with its
    [H::combine]. *)
Definition AbslHashValue {H : Type} (combine : H -> Wakeable -> H)
    (h : H) (w : t) : H :=
  combine h (wakeable_ w).

(** What a Waker that is not assigned to goes through before it is
    destroyed. *)
Inductive use : Type :=
| UseWakeup       (* [w.Wakeup()] *)
| UseMoveFrom.    (* [Waker v(std::move(w))] *)

Definition apply_use (u : use) (w : t) : t * list Call :=
  match u with
  | UseWakeup => Wakeup w
  | UseMoveFrom => (snd (move_ctor w), [])
  end.

Fixpoint apply_uses (us : list use) (w : t) : t * list Call :=
  match us with
  | [] => (w, [])
  | u :: us' =>
      let '(w1, c1) := apply_use u w in
      let '(w2, c2) := apply_uses us' w1 in
      (w2, c1 ++ c2)
  end.

(** A whole life: the uses, then the destructor. *)
Definition lifetime (us : list use) (w : t) : list Call :=
  let '(w', cs) := apply_uses us w in cs ++ dtor w'.

(** Wakers that were default-constructed, woken, moved from by move
    construction, or moved from by an assignment whose destination was
    itself such a Waker. *)
Inductive consumed : t -> Prop :=
| consumed_default : consumed default
| consumed_woken (w : t) : consumed (fst (Wakeup w))
| consumed_moved (w : t) : consumed (snd (move_ctor w))
| consumed_assigned (this other : t) :
    consumed this -> consumed (snd (move_assign this other)).

End Waker.

(** ** class AtomicWaker *)
Module AtomicWaker.

(** [std::atomic<Wakeable*> wakeable_].  Every access below is one atomic
    operation, so a sequential function per method is its meaning. *)
Record t : Type := mk { wakeable_ : Wakeable }.

(** [explicit AtomicWaker(Wakeable* wakeable)] *)
Definition ctor (wakeable : Wakeable) : t := mk wakeable.

(** [AtomicWaker()] *)
Definition default : t := ctor activity_detail.unwakeable.

(** [explicit AtomicWaker(Waker waker) : AtomicWaker(waker.Take())];
    the by-value parameter is destroyed on return. *)
Definition of_waker (waker : Waker.t) : t * list Call :=
  let '(p, waker') := Waker.Take waker in
  (ctor p, Waker.dtor waker').

(** [~AtomicWaker() { wakeable_.load(acquire)->Drop(); }] *)
Definition dtor (s : t) : list Call := [(wakeable_ s, M_Drop)].

(** [Wakeable* Take()]: exchange with the sentinel. *)
Definition Take (s : t) : Wakeable * t :=
  let '(old, new) := std_exchange (wakeable_ s) activity_detail.unwakeable in
  (old, mk new).

(** [void Wakeup() { Take()->Wakeup(); }] *)
Definition Wakeup (s : t) : t * list Call :=
  let '(p, s') := Take s in (s', [(p, M_Wakeup)]).

(** [bool Armed() const] *)
Definition Armed (s : t) : bool :=
  negb (Wakeable_eqb (wakeable_ s) activity_detail.unwakeable).

(** [void Set(Waker waker)]:
    [wakeable_.exchange(waker.Take(), acq_rel)->Wakeup();] and then the
    destructor of the parameter. *)
Definition Set_ (s : t) (waker : Waker.t) : t * list Call :=
  let '(p, waker') := Waker.Take waker in
  let '(old, new) := std_exchange (wakeable_ s) p in
  (mk new, (old, M_Wakeup) :: Waker.dtor waker').

(** Operations applied to one slot over time. *)
Inductive op : Type :=
| DoSet (waker : Waker.t)
| DoWakeup.

Definition apply_op (o : op) (s : t) : t * list Call :=
  match o with
  | DoSet w => Set_ s w
  | DoWakeup => Wakeup s
  end.

Fixpoint apply_ops (os : list op) (s : t) : t * list Call :=
  match os with
  | [] => (s, [])
  | o :: os' =>
      let '(s1, c1) := apply_op o s in
      let '(s2, c2) := apply_ops os' s1 in
      (s2, c1 ++ c2)
  end.

(** The pointer an operation stores into the slot. *)
Definition stored (o : op) : Wakeable :=
  match o with
  | DoSet w => Waker.wakeable_ w
  | DoWakeup => activity_detail.unwakeable
  end.

(** A whole life of a slot: made from a Waker, operated on, destroyed. *)
Definition lifetime (waker : Waker.t) (os : list op) : list Call :=
  let '(s, c0) := of_waker waker in
  let '(s', cs) := apply_ops os s in
  c0 ++ cs ++ dtor s'.

(** Each pointer of a list woken, except the last, which is dropped. *)
Definition consume (ps : list Wakeable) : list Call :=
  map (fun p => (p, M_Wakeup)) (removelast ps)
  ++ [(last ps activity_detail.unwakeable, M_Drop)].

End AtomicWaker.

(** The receivers of the [Wakeup] calls of a list, in order. *)
Definition woken (cs : list Call) : list Wakeable :=
  map fst (filter (fun c => Method_eqb (snd c) M_Wakeup) cs).

(** ** class Activity: the thread-local current activity *)
Module Activity.

(** [Activity*]: [nullptr] or the address of an activity. *)
Definition ptr : Type := option nat.

Definition ptr_eqb (a b : ptr) : bool :=
  match a, b with
  | None, None => true
  | Some x, Some y => Nat.eqb x y
  | _, _ => false
  end.

(** Below, [g] is the value of [static thread_local Activity*
    g_current_activity_] on the executing thread. *)

(** [static Activity* current()] *)
Definition current (g : ptr) : ptr := g.

(** [bool is_current() const { return this == g_current_activity_; }] *)
Definition is_current (this : nat) (g : ptr) : bool := ptr_eqb (Some this) g.

(** [static bool have_current()] *)
Definition have_current (g : ptr) : bool := negb (ptr_eqb g None).

Module ScopedActivity.

Record t : Type := mk { prior_activity_ : ptr }.

(** [explicit ScopedActivity(Activity* activity)]: the scope object and
    the new value of the thread-local. *)
Definition ctor (activity : ptr) (g : ptr) : t * ptr :=
  (mk g, activity).

(** [~ScopedActivity() { g_current_activity_ = prior_activity_; }] *)
Definition dtor (s : t) (g : ptr) : ptr := prior_activity_ s.

End ScopedActivity.

(** Straight-line code of one thread that only opens scopes and reads the
    current activity: [Scoped a body rest] is
    [{ ScopedActivity s(a); body } rest]. *)
Inductive block : Type :=
| Skip
| Read (rest : block)
| Scoped (activity : ptr) (body rest : block).

(** The values read by [Activity::current()], in order, and the
    thread-local at the end. *)
Fixpoint run_block (b : block) (g : ptr) : list ptr * ptr :=
  match b with
  | Skip => ([], g)
  | Read rest =>
      let '(seen, g') := run_block rest g in (current g :: seen, g')
  | Scoped a body rest =>
      let '(s, g1) := ScopedActivity.ctor a g in
      let '(seen1, g2) := run_block body g1 in
      let g3 := ScopedActivity.dtor s g2 in
      let '(seen2, g4) := run_block rest g3 in
      (seen1 ++ seen2, g4)
  end.

(** Open one scope per element of [l], innermost last; the scope objects
    come back innermost first. *)
Fixpoint enter_all (l : list ptr) (stack : list ScopedActivity.t) (g : ptr)
  : list ScopedActivity.t * ptr :=
  match l with
  | [] => (stack, g)
  | a :: l' =>
      let '(s, g') := ScopedActivity.ctor a g in
      enter_all l' (s :: stack) g'
  end.

(** Close the scopes innermost first; the thread-local after each
    destructor. *)
Fixpoint leave_all (stack : list ScopedActivity.t) (g : ptr) : list ptr :=
  match stack with
  | [] => []
  | s :: stack' =>
      let g' := ScopedActivity.dtor s g in
      g' :: leave_all stack' g'
  end.

End Activity.

(** ** FreestandingActivity and PromiseActivity

    One activity and the threads that call it.  A call of a method is one
    step of an execution: [mu_] serialises [Step] and [Cancel], and the
    methods that do not take it ([Wakeup] from another thread, [Drop],
    [MakeOwningWaker]) act on the object through one atomic operation.
    The calls the promise makes, and the calls other threads make without
    the mutex, while a poll runs are part of that poll.  Memory orders are
    not modelled.  [on_done_] and [ScheduleWakeup] are recorded, not run;
    the non-owning handle ([MakeNonOwningWaker], [RefIfNonzero], defined
    outside this header) and the contexts are left out. *)

(** [enum class ActionDuringRun : uint8_t] *)
Inductive ActionDuringRun : Type := kNone | kWakeup | kCancel.

(** The enumerators' underlying values. *)
Definition ActionDuringRun_value (a : ActionDuringRun) : Z :=
  match a with
  | kNone => 0
  | kWakeup => 1
  | kCancel => 2
  end%Z.

(** The built-in [<] of a scoped enumeration compares underlying values. *)
Definition ActionDuringRun_lt (a b : ActionDuringRun) : bool :=
  (ActionDuringRun_value a <? ActionDuringRun_value b)%Z.

(** [std::max(a, b)] is [(a < b) ? b : a]. *)
Definition std_max {A : Type} (lt : A -> A -> bool) (a b : A) : A :=
  if lt a b then b else a.

(** [Poll<T>] of [poll.h]: [absl::variant<Pending, T>]. *)
Inductive Poll (T : Type) : Type :=
| Pending
| Ready (x : T).
Arguments Pending {T}.
Arguments Ready {T} x.

(** Threads, by number. *)
Definition Tid : Type := nat.

(** Methods of the activity that never poll the promise themselves, as
    they are called from a thread. *)
Inductive Op : Type :=
| OpWakeup                 (* an owning Waker of the activity is fired *)
| OpDrop                   (* an owning Waker of the activity is dropped *)
| OpCancel                 (* [Cancel()] *)
| OpOrphan                 (* [Orphan()], the ActivityPtr is released *)
| OpMakeOwningWaker        (* [MakeOwningWaker()], the Waker is kept *)
| OpForceWakeup            (* [ForceWakeup()] *)
| OpForceImmediateRepoll.  (* [ForceImmediateRepoll()] *)

(** Where the creator's reference is. *)
Inductive Primary : Type :=
| Constructing   (* the constructor has not returned yet *)
| Held           (* the ActivityPtr is alive *)
| Released.      (* Orphan has been called *)

(** Why a run stops early. *)
Inductive failure : Type :=
| AssertIsCurrent        (* [GPR_ASSERT(is_current())] *)
| AssertNotDone          (* [GPR_ASSERT(!done_)] *)
| AssertDone             (* [GPR_ASSERT(done_)] of the destructor *)
| AssertWakeupScheduled  (* [GPR_ASSERT(wakeup_scheduled_.exchange(false))] *)
| AssertHeld             (* [mu()->AssertHeld()] *)
| Blocked                (* [Lock()] on a mutex that is held *)
| NoPromise              (* the promise is called outside its lifetime *)
| UseAfterDelete.        (* a method is called on the deleted object *)

Module PromiseActivity.
Section WithPromise.

(** The promise is a black box that can be polled: [PS] is its state, [R]
    the type it is ready with.  One call moves it to its next state,
    makes it call some methods of the activity (from the polling thread,
    or from other threads while the poll is running, which do not need
    the mutex), and returns. *)
Variable PS : Type.
Variable R : Type.
Variable poll : PS -> PS * list (Tid * Op) * Poll R.

(** [ResultType], with [IntoStatus] of [detail/status.h] and the value
    [absl::CancelledError()] converts to. *)
Variable ResultType : Type.
Variable IntoStatus : R -> ResultType.
Variable CancelledError : ResultType.

(** The address of the activity. *)
Variable this : nat.

(** The members of the object, the thread-locals, and what the object
    has done to its collaborators.  The last three fields belong to the
    clients: they record how the object has been used and are never read
    by the methods. *)
Record world : Type := mkWorld {
  mu_ : option Tid;                            (* holder of [mu_] *)
  refs_ : Z;                                   (* [std::atomic<uint32_t>] *)
  action_during_run_ : ActionDuringRun;
  done_ : bool;
  wakeup_scheduled_ : bool;
  promise_holder_ : option PS;                 (* [Some] while constructed *)
  g_current_activity_ : Tid -> Activity.ptr;   (* one per thread *)
  deleted : bool;                              (* [delete this] has run *)
  on_done_calls : list ResultType;             (* arguments of [on_done_] *)
  scheduled : nat;              (* [ScheduleWakeup] requests not yet run *)
  polls : nat;                                 (* calls of the promise *)
  wakers : nat;                 (* owning Wakers of the activity alive *)
  primary : Primary;
  misused : bool                (* a client broke the usage contract *)
  }.

Definition set_mu v w :=
  mkWorld v (refs_ w) (action_during_run_ w) (done_ w) (wakeup_scheduled_ w)
    (promise_holder_ w) (g_current_activity_ w) (deleted w)
    (on_done_calls w) (scheduled w) (polls w) (wakers w) (primary w)
    (misused w).
Definition set_refs v w :=
  mkWorld (mu_ w) v (action_during_run_ w) (done_ w) (wakeup_scheduled_ w)
    (promise_holder_ w) (g_current_activity_ w) (deleted w)
    (on_done_calls w) (scheduled w) (polls w) (wakers w) (primary w)
    (misused w).
Definition set_action v w :=
  mkWorld (mu_ w) (refs_ w) v (done_ w) (wakeup_scheduled_ w)
    (promise_holder_ w) (g_current_activity_ w) (deleted w)
    (on_done_calls w) (scheduled w) (polls w) (wakers w) (primary w)
    (misused w).
Definition set_done v w :=
  mkWorld (mu_ w) (refs_ w) (action_during_run_ w) v (wakeup_scheduled_ w)
    (promise_holder_ w) (g_current_activity_ w) (deleted w)
    (on_done_calls w) (scheduled w) (polls w) (wakers w) (primary w)
    (misused w).
Definition set_wakeup_scheduled v w :=
  mkWorld (mu_ w) (refs_ w) (action_during_run_ w) (done_ w) v
    (promise_holder_ w) (g_current_activity_ w) (deleted w)
    (on_done_calls w) (scheduled w) (polls w) (wakers w) (primary w)
    (misused w).
Definition set_promise v w :=
  mkWorld (mu_ w) (refs_ w) (action_during_run_ w) (done_ w)
    (wakeup_scheduled_ w) v (g_current_activity_ w) (deleted w)
    (on_done_calls w) (scheduled w) (polls w) (wakers w) (primary w)
    (misused w).
Definition set_current v w :=
  mkWorld (mu_ w) (refs_ w) (action_during_run_ w) (done_ w)
    (wakeup_scheduled_ w) (promise_holder_ w) v (deleted w)
    (on_done_calls w) (scheduled w) (polls w) (wakers w) (primary w)
    (misused w).
Definition set_deleted v w :=
  mkWorld (mu_ w) (refs_ w) (action_during_run_ w) (done_ w)
    (wakeup_scheduled_ w) (promise_holder_ w) (g_current_activity_ w) v
    (on_done_calls w) (scheduled w) (polls w) (wakers w) (primary w)
    (misused w).
Definition set_on_done_calls v w :=
  mkWorld (mu_ w) (refs_ w) (action_during_run_ w) (done_ w)
    (wakeup_scheduled_ w) (promise_holder_ w) (g_current_activity_ w)
    (deleted w) v (scheduled w) (polls w) (wakers w) (primary w)
    (misused w).
Definition set_scheduled v w :=
  mkWorld (mu_ w) (refs_ w) (action_during_run_ w) (done_ w)
    (wakeup_scheduled_ w) (promise_holder_ w) (g_current_activity_ w)
    (deleted w) (on_done_calls w) v (polls w) (wakers w) (primary w)
    (misused w).
Definition set_polls v w :=
  mkWorld (mu_ w) (refs_ w) (action_during_run_ w) (done_ w)
    (wakeup_scheduled_ w) (promise_holder_ w) (g_current_activity_ w)
    (deleted w) (on_done_calls w) (scheduled w) v (wakers w) (primary w)
    (misused w).
Definition set_wakers v w :=
  mkWorld (mu_ w) (refs_ w) (action_during_run_ w) (done_ w)
    (wakeup_scheduled_ w) (promise_holder_ w) (g_current_activity_ w)
    (deleted w) (on_done_calls w) (scheduled w) (polls w) v (primary w)
    (misused w).
Definition set_primary v w :=
  mkWorld (mu_ w) (refs_ w) (action_during_run_ w) (done_ w)
    (wakeup_scheduled_ w) (promise_holder_ w) (g_current_activity_ w)
    (deleted w) (on_done_calls w) (scheduled w) (polls w) (wakers w) v
    (misused w).
Definition set_misused v w :=
  mkWorld (mu_ w) (refs_ w) (action_during_run_ w) (done_ w)
    (wakeup_scheduled_ w) (promise_holder_ w) (g_current_activity_ w)
    (deleted w) (on_done_calls w) (scheduled w) (polls w) (wakers w)
    (primary w) v.

(** *** The monad of the methods: state, assertion failure, fuel *)

Inductive result (A : Type) : Type :=
  | Ok (a : A) (w : world)
  | Fail (f : failure) (w : world)
  | OutOfFuel (w : world).
Arguments Ok {A} a w.
Arguments Fail {A} f w.
Arguments OutOfFuel {A} w.

Definition M (A : Type) : Type := world -> result A.

Definition ret {A : Type} (a : A) : M A := fun w => Ok a w.

Definition bind {A B : Type} (m : M A) (k : A -> M B) : M B :=
  fun w =>
    match m w with
    | Ok a w' => k a w'
    | Fail f w' => Fail f w'
    | OutOfFuel w' => OutOfFuel w'
    end.

Definition gets {A : Type} (f : world -> A) : M A := fun w => Ok (f w) w.
Definition modify (f : world -> world) : M unit := fun w => Ok tt (f w).
Definition fail {A : Type} (f : failure) : M A := fun w => Fail f w.
Definition out_of_fuel {A : Type} : M A := fun w => OutOfFuel w.

(** [GPR_ASSERT(b)] *)
Definition GPR_ASSERT (b : bool) (f : failure) : M unit :=
  if b then ret tt else fail f.

(** The world a run ends in, however it ends. *)
Definition final {A : Type} (r : result A) : world :=
  match r with
  | Ok _ w | Fail _ w | OutOfFuel w => w
  end.

Notation "x <- m ;; k" := (bind m (fun x => k))
  (at level 61, m at next level, right associativity).
Notation "m ;; k" := (bind m (fun _ => k))
  (at level 61, right associativity).

(** *** Mutex and thread-local *)

(** [mu()->Lock()]: a thread that would have to wait stops the run. *)
Definition Lock (t : Tid) : M unit :=
  h <- gets mu_ ;;
  match h with
  | None => modify (set_mu (Some t))
  | Some _ => fail Blocked
  end.

(** [mu()->Unlock()] *)
Definition Unlock (t : Tid) : M unit := modify (set_mu None).

(** [mu()->AssertHeld()] *)
Definition AssertHeld_ (t : Tid) : M unit :=
  h <- gets mu_ ;;
  match h with
  | Some t' => GPR_ASSERT (Nat.eqb t' t) AssertHeld
  | None => fail AssertHeld
  end.

(** Write the thread-local of thread [t]. *)
Definition store_current (t : Tid) (v : Activity.ptr) : M unit :=
  modify (fun w =>
    set_current (fun t' => if Nat.eqb t' t then v
                           else g_current_activity_ w t') w).

(** [Activity::is_current()] called on thread [t]. *)
Definition is_current (t : Tid) : M bool :=
  gets (fun w => Activity.is_current this (g_current_activity_ w t)).

(** [ScopedActivity scoped_activity(this);] on thread [t] *)
Definition ScopedActivity_enter (t : Tid) : M Activity.ScopedActivity.t :=
  g <- gets (fun w => g_current_activity_ w t) ;;
  let '(s, g') := Activity.ScopedActivity.ctor (Some this) g in
  store_current t g' ;;
  ret s.

(** the end of the scope of [scoped_activity] *)
Definition ScopedActivity_leave (t : Tid) (s : Activity.ScopedActivity.t)
  : M unit :=
  g <- gets (fun w => g_current_activity_ w t) ;;
  store_current t (Activity.ScopedActivity.dtor s g).

(** *** FreestandingActivity *)

(** [~PromiseActivity() { GPR_ASSERT(done_); }], then
    [~FreestandingActivity()], whose [handle_] is null here because
    [MakeNonOwningWaker] (defined outside this header) is not modelled,
    then the memory is released. *)
Definition dtor : M unit :=
  d <- gets done_ ;;
  GPR_ASSERT d AssertDone ;;
  modify (set_deleted true).

(** [void Ref() { refs_.fetch_add(1, relaxed); }] *)
Definition Ref : M unit :=
  modify (fun w => set_refs ((refs_ w + 1) mod 2 ^ 32)%Z w).

(** [void Unref() { if (1 == refs_.fetch_sub(1, acq_rel)) delete this; }] *)
Definition Unref : M unit :=
  old <- gets refs_ ;;
  modify (set_refs ((old - 1) mod 2 ^ 32)%Z) ;;
  if (1 =? old)%Z then dtor else ret tt.

(** [void WakeupComplete() { Unref(); }] *)
Definition WakeupComplete : M unit := Unref.

(** [ActionDuringRun GotActionDuringRun()] *)
Definition GotActionDuringRun : M ActionDuringRun :=
  a <- gets action_during_run_ ;;
  let '(old, new) := std_exchange a kNone in
  modify (set_action new) ;;
  ret old.

(** [void SetActionDuringRun(ActionDuringRun action)] *)
Definition SetActionDuringRun (action : ActionDuringRun) : M unit :=
  modify (fun w =>
    set_action (std_max ActionDuringRun_lt (action_during_run_ w) action) w).

(** [Waker MakeOwningWaker() { Ref(); return Waker(this); }] *)
Definition MakeOwningWaker : M Waker.t :=
  Ref ;;
  ret (Waker.ctor (Target this)).

(** [void ForceImmediateRepoll()] *)
Definition ForceImmediateRepoll (t : Tid) : M unit :=
  AssertHeld_ t ;;
  SetActionDuringRun kWakeup.

(** *** PromiseActivity *)

(** [on_done_(status)] *)
Definition on_done_ (status : ResultType) : M unit :=
  modify (fun w => set_on_done_calls (on_done_calls w ++ [status]) w).

(** [wakeup_scheduler_.ScheduleWakeup(this)] *)
Definition ScheduleWakeup : M unit :=
  modify (fun w => set_scheduled (S (scheduled w)) w).

(** [wakeup_scheduled_.exchange(v, acq_rel)] *)
Definition exchange_wakeup_scheduled (v : bool) : M bool :=
  b <- gets wakeup_scheduled_ ;;
  let '(old, new) := std_exchange b v in
  modify (set_wakeup_scheduled new) ;;
  ret old.

(** [void MarkDone()] *)
Definition MarkDone : M unit :=
  d <- gets done_ ;;
  GPR_ASSERT (negb d) AssertNotDone ;;
  modify (set_done true) ;;
  modify (set_promise None).

(** [void Cancel() final], called on thread [t] *)
Definition Cancel (t : Tid) : M unit :=
  c <- is_current t ;;
  if c then
    AssertHeld_ t ;;
    SetActionDuringRun kCancel
  else
    Lock t ;;
    was_done <- gets done_ ;;
    (if negb was_done then
       s <- ScopedActivity_enter t ;;
       MarkDone ;;
       ScopedActivity_leave t s
     else ret tt) ;;
    Unlock t ;;
    if negb was_done then on_done_ CancelledError else ret tt.

(** [void Wakeup() final], called on thread [t] *)
Definition Wakeup (t : Tid) : M unit :=
  c <- is_current t ;;
  if c then
    AssertHeld_ t ;;
    SetActionDuringRun kWakeup ;;
    WakeupComplete
  else
    old <- exchange_wakeup_scheduled true ;;
    if negb old then ScheduleWakeup else WakeupComplete.

(** [void Drop() final { this->WakeupComplete(); }] *)
Definition Drop : M unit := WakeupComplete.

(** [void Orphan() final { Cancel(); Unref(); }] *)
Definition Orphan (t : Tid) : M unit :=
  Cancel t ;;
  Unref.

(** A virtual call made by a Waker on thread [t], as far as this activity
    is concerned: it is the receiver, or the call goes elsewhere. *)
Definition deliver (t : Tid) (c : Call) : M unit :=
  match c with
  | (Target a, m) =>
      if Nat.eqb a this then
        match m with
        | M_Wakeup => Wakeup t
        | M_Drop => Drop
        end
      else ret tt
  | (Unwakeable, _) => ret tt
  end.

Fixpoint deliver_all (t : Tid) (cs : list Call) : M unit :=
  match cs with
  | [] => ret tt
  | c :: cs' => deliver t c ;; deliver_all t cs'
  end.

(** [void ForceWakeup() { MakeOwningWaker().Wakeup(); }]: the temporary
    is destroyed at the end of the statement. *)
Definition ForceWakeup (t : Tid) : M unit :=
  w <- MakeOwningWaker ;;
  let '(w', cs) := Waker.Wakeup w in
  deliver_all t (cs ++ Waker.dtor w').

(** *** The clients' side: what each call presupposes

    An owning Waker can be fired or dropped once, by whoever holds it;
    the ActivityPtr can be orphaned once, after the constructor has
    returned; the activity can be named by the thread that polls it
    ([Activity::current()]) or by the holder of the ActivityPtr; the
    reference count has 32 bits.  A call outside these rules is
    flagged; the methods run all the same. *)

Definition flag_misuse : M unit := modify (set_misused true).

Definition require (b : bool) : M unit :=
  if b then ret tt else flag_misuse.

Definition take_waker : M unit :=
  n <- gets wakers ;;
  match n with
  | O => flag_misuse
  | S n' => modify (set_wakers n')
  end.

Definition can_name (t : Tid) : M bool :=
  c <- is_current t ;;
  p <- gets primary ;;
  ret (c || match p with Held => true | _ => false end).

Definition contract (t : Tid) (op : Op) : M unit :=
  match op with
  | OpWakeup | OpDrop => take_waker
  | OpCancel => ret tt
  | OpOrphan =>
      p <- gets primary ;;
      match p with
      | Held => modify (set_primary Released)
      | _ => flag_misuse
      end
  | OpMakeOwningWaker =>
      ok <- can_name t ;;
      r <- gets refs_ ;;
      require (ok && (r <? 2 ^ 32 - 1)%Z) ;;
      modify (fun w => set_wakers (S (wakers w)) w)
  | OpForceWakeup =>
      ok <- can_name t ;;
      r <- gets refs_ ;;
      require (ok && (r <? 2 ^ 32 - 1)%Z)
  | OpForceImmediateRepoll =>
      c <- is_current t ;;
      require c
  end.

(** A method call on the deleted object is undefined. *)
Definition alive : M unit :=
  d <- gets deleted ;;
  if d then fail UseAfterDelete else ret tt.

Definition do_op (t : Tid) (op : Op) : M unit :=
  alive ;;
  contract t op ;;
  match op with
  | OpWakeup => Wakeup t
  | OpDrop => Drop
  | OpCancel => Cancel t
  | OpOrphan => Orphan t
  | OpMakeOwningWaker => _ <- MakeOwningWaker ;; ret tt
  | OpForceWakeup => ForceWakeup t
  | OpForceImmediateRepoll => ForceImmediateRepoll t
  end.

Fixpoint do_ops (ops : list (Tid * Op)) : M unit :=
  match ops with
  | [] => ret tt
  | (t, op) :: ops' => do_op t op ;; do_ops ops'
  end.

(** *** The poll loop *)

(** [promise_holder_.promise()] *)
Definition call_promise : M (Poll R) :=
  p <- gets promise_holder_ ;;
  match p with
  | None => fail NoPromise
  | Some ps =>
      let '(ps', ops, r) := poll ps in
      modify (fun w => set_polls (S (polls w)) w) ;;
      modify (set_promise (Some ps')) ;;
      do_ops ops ;;
      ret r
  end.

(** The [while (true)] of [StepLoop]; [fuel] bounds the iterations. *)
Fixpoint StepLoop_while (fuel : nat) : M (option ResultType) :=
  match fuel with
  | O => out_of_fuel
  | S fuel' =>
      d <- gets done_ ;;
      GPR_ASSERT (negb d) AssertNotDone ;;
      r <- call_promise ;;
      match r with
      | Ready status =>
          MarkDone ;;
          ret (Some (IntoStatus status))
      | Pending =>
          a <- GotActionDuringRun ;;
          match a with
          | kNone => ret None
          | kWakeup => StepLoop_while fuel'
          | kCancel =>
              MarkDone ;;
              ret (Some CancelledError)
          end
      end
  end.

(** [absl::optional<ResultType> StepLoop()] on thread [t] *)
Definition StepLoop (fuel : nat) (t : Tid) : M (option ResultType) :=
  c <- is_current t ;;
  GPR_ASSERT c AssertIsCurrent ;;
  StepLoop_while fuel.

(** [absl::optional<ResultType> RunStep()].  [ScopedContext] installs the
    contexts of [context.h], which no method here reads. *)
Definition RunStep (fuel : nat) (t : Tid) : M (option ResultType) :=
  scoped_activity <- ScopedActivity_enter t ;;
  r <- StepLoop fuel t ;;
  ScopedActivity_leave t scoped_activity ;;
  ret r.

(** [absl::optional<ResultType> Start(Factory promise_factory)];
    [ps0] is the promise that [promise_factory.Once()] makes. *)
Definition Start (fuel : nat) (t : Tid) (ps0 : PS) : M (option ResultType) :=
  scoped_activity <- ScopedActivity_enter t ;;
  modify (set_promise (Some ps0)) ;;
  r <- StepLoop fuel t ;;
  ScopedActivity_leave t scoped_activity ;;
  ret r.

(** [void Step()] *)
Definition Step (fuel : nat) (t : Tid) : M unit :=
  Lock t ;;
  d <- gets done_ ;;
  if d then Unlock t
  else
    status <- RunStep fuel t ;;
    Unlock t ;;
    match status with
    | Some s => on_done_ s
    | None => ret tt
    end.

(** [void RunScheduledWakeup()] *)
Definition RunScheduledWakeup (fuel : nat) (t : Tid) : M unit :=
  old <- exchange_wakeup_scheduled false ;;
  GPR_ASSERT old AssertWakeupScheduled ;;
  Step fuel t ;;
  WakeupComplete.

(** The object as allocated, with its member initialisers; [tls] holds
    the thread-locals at that time. *)
Definition allocated (tls : Tid -> Activity.ptr) : world :=
  mkWorld None 1 kNone false false None tls false [] 0 0 0 Constructing false.

(** The body of the constructor [PromiseActivity(...)], on thread [t]. *)
Definition ctor (fuel : nat) (t : Tid) (ps0 : PS) : M unit :=
  Lock t ;;
  status <- Start fuel t ps0 ;;
  Unlock t ;;
  match status with
  | Some s => on_done_ s
  | None => ret tt
  end.

(** [MakeActivity]: [return ActivityPtr(new PromiseActivity(...))]. *)
Definition MakeActivity (fuel : nat) (t : Tid) (ps0 : PS) : M unit :=
  ctor fuel t ps0 ;;
  modify (set_primary Held).

(** *** Executions *)

(** What happens to the activity after [MakeActivity], one call at a
    time.  The wakeup scheduler runs a request it was given; [EvStep]
    is a bare call of the private [Step]. *)
Inductive event : Type :=
  | EvOp (t : Tid) (op : Op)
  | EvRunScheduledWakeup (t : Tid)
  | EvStep (t : Tid).

(** The scheduler takes one request off its queue. *)
Definition scheduler_take : M unit :=
  n <- gets scheduled ;;
  match n with
  | O => flag_misuse
  | S n' => modify (set_scheduled n')
  end.

Definition do_event (fuel : nat) (e : event) : M unit :=
  match e with
  | EvOp t op => do_op t op
  | EvRunScheduledWakeup t =>
      alive ;;
      scheduler_take ;;
      RunScheduledWakeup fuel t
  | EvStep t =>
      alive ;;
      flag_misuse ;;
      Step fuel t
  end.

Fixpoint run (fuel : nat) (evs : list event) : M unit :=
  match evs with
  | [] => ret tt
  | e :: evs' => do_event fuel e ;; run fuel evs'
  end.

(** A whole execution from the allocation on. *)
Definition execution (fuel : nat) (tls : Tid -> Activity.ptr) (t : Tid)
    (ps0 : PS) (evs : list event) : result unit :=
  (MakeActivity fuel t ps0 ;; run fuel evs) (allocated tls).

(** *** Invariants of executions *)

Definition b2n (b : bool) : nat := if b then 1 else 0.

(** The references the clients and the scheduler hold. *)
Definition holders (w : world) : Z :=
  ((match primary w with Released => 0 | _ => 1 end)
   + Z.of_nat (wakers w) + Z.of_nat (scheduled w))%Z.

(** [triple P m Q E]: from a world in [P], [m] returns [a] in a world in
    [Q a], or stops in a world in [E], with the failure or [None] for
    lack of fuel. *)
Definition triple {A : Type} (P : world -> Prop) (m : M A)
    (Q : A -> world -> Prop) (E : option failure -> world -> Prop) : Prop :=
  forall w, P w ->
    match m w with
    | Ok a w' => Q a w'
    | Fail f w' => E (Some f) w'
    | OutOfFuel w' => E None w'
    end.

(** Holds at every point of every execution. *)
Definition always_inv (w : world) : Prop :=
  scheduled w = b2n (wakeup_scheduled_ w) /\
  length (on_done_calls w) <= 1 /\
  (length (on_done_calls w) = 1 -> done_ w = true) /\
  (deleted w = true -> done_ w = true).

(** Where a run may stop early: the destructor's assertion fails only
    after a client broke the contract. *)
Definition stopped (f : option failure) (w : world) : Prop :=
  always_inv w /\ (f = Some AssertDone -> misused w = true).

(** What the reference count is while the contract is kept; [extra] is 1
    while [RunScheduledWakeup] holds the reference it was scheduled with. *)
Definition counted (extra : Z) (w : world) : Prop :=
  (refs_ w = holders w + extra)%Z /\ (refs_ w < 2 ^ 32)%Z.

(** Between two calls, when [extra] references are held by calls in
    progress: nobody holds the mutex or is current, the callback has been
    invoked if and only if the activity is done, and, while the clients
    keep the contract, the reference count is the number of holders and
    the ActivityPtr is released only once the activity is done. *)
Definition resting (extra : Z) (w : world) : Prop :=
  mu_ w = None /\
  (forall t, g_current_activity_ w t <> Some this) /\
  scheduled w = b2n (wakeup_scheduled_ w) /\
  length (on_done_calls w) = b2n (done_ w) /\
  (deleted w = true -> done_ w = true) /\
  (misused w = false ->
   primary w <> Constructing /\
   (primary w = Released -> done_ w = true) /\
   counted extra w).

(** Between two calls. *)
Definition idle_inv (w : world) : Prop := resting 0 w.

(** While thread [t] polls the promise: it holds the mutex and is the only
    thread whose current activity is this one, the activity is not done
    and has not called back.  [m0] tells whether the contract was already
    broken when the call began; while it is kept, a released ActivityPtr
    means the cancellation has been recorded, and [extra] is 0 exactly in
    the constructor. *)
Definition polling_inv (t : Tid) (extra : Z) (m0 : bool) (w : world) : Prop :=
  mu_ w = Some t /\
  (forall t', g_current_activity_ w t' = Some this <-> t' = t) /\
  done_ w = false /\
  deleted w = false /\
  on_done_calls w = [] /\
  scheduled w = b2n (wakeup_scheduled_ w) /\
  (m0 = true -> misused w = true) /\
  (misused w = false ->
   (primary w = Released -> action_during_run_ w = kCancel) /\
   (extra = 0%Z -> primary w = Constructing) /\
   (primary w = Constructing -> extra = 0%Z) /\
   (0 <= extra)%Z /\
   counted extra w).


(** What a call made during a poll leaves alone, and what it does to the
    recorded action. *)
Definition poll_frame (w w' : world) : Prop :=
  promise_holder_ w' = promise_holder_ w /\
  polls w' = polls w /\
  (ActionDuringRun_value (action_during_run_ w)
   <= ActionDuringRun_value (action_during_run_ w'))%Z.

(** When the loop has returned [r] on thread [t]. *)
Definition after_loop (t : Tid) (extra : Z) (m0 : bool) (r : option ResultType)
    (w : world) : Prop :=
  mu_ w = Some t /\
  (forall t', g_current_activity_ w t' = Some this <-> t' = t) /\
  deleted w = false /\
  on_done_calls w = [] /\
  scheduled w = b2n (wakeup_scheduled_ w) /\
  done_ w = match r with Some _ => true | None => false end /\
  (m0 = true -> misused w = true) /\
  (misused w = false ->
   (primary w = Released -> done_ w = true) /\
   (extra = 0%Z -> primary w = Constructing) /\
   (primary w = Constructing -> extra = 0%Z) /\
   (0 <= extra)%Z /\
   counted extra w).

(** Thread [t] holds the mutex of an activity that is not done and is
    about to enter the scope of a poll. *)
Definition locked (t : Tid) (extra : Z) (m0 : bool) (w : world) : Prop :=
  mu_ w = Some t /\
  (forall t', g_current_activity_ w t' <> Some this) /\
  done_ w = false /\
  deleted w = false /\
  on_done_calls w = [] /\
  scheduled w = b2n (wakeup_scheduled_ w) /\
  (m0 = true -> misused w = true) /\
  (misused w = false ->
   primary w <> Released /\
   (extra = 0%Z -> primary w = Constructing) /\
   (primary w = Constructing -> extra = 0%Z) /\
   (0 <= extra)%Z /\
   counted extra w).

(** Thread [t] has left the scope of the poll, which returned [r]. *)
Definition after_run (t : Tid) (extra : Z) (m0 : bool) (r : option ResultType)
    (w : world) : Prop :=
  mu_ w = Some t /\
  (forall t', g_current_activity_ w t' <> Some this) /\
  deleted w = false /\
  on_done_calls w = [] /\
  scheduled w = b2n (wakeup_scheduled_ w) /\
  done_ w = match r with Some _ => true | None => false end /\
  (m0 = true -> misused w = true) /\
  (misused w = false ->
   (primary w = Released -> done_ w = true) /\
   (extra = 0%Z -> primary w = Constructing) /\
   (primary w = Constructing -> extra = 0%Z) /\
   (0 <= extra)%Z /\
   counted extra w).

(** Calls that cancel the activity when they are made between polls. *)
Definition cancels (e : event) : bool :=
  match e with
  | EvOp _ OpCancel | EvOp _ OpOrphan => true
  | _ => false
  end.

(** Record the actions of a list, one [SetActionDuringRun] each. *)
Fixpoint record_actions (l : list ActionDuringRun) : M unit :=
  match l with
  | [] => ret tt
  | a :: l' => SetActionDuringRun a ;; record_actions l'
  end.

(** The results the activity may hand to [on_done_]: the cancellation, or
    the conversion of a value that some state of the promise is ready
    with. *)
Definition genuine (s : ResultType) : Prop :=
  s = CancelledError \/
  exists (ps : PS) (x : R), snd (poll ps) = Ready x /\ s = IntoStatus x.

(** Between two calls, with [tls0] the thread-locals at allocation: the
    mutex is free, the thread-locals are back, and the promise is alive
    exactly while the activity is not done. *)
Definition sound_idle (tls0 : Tid -> Activity.ptr) (w : world) : Prop :=
  mu_ w = None /\
  (forall t, g_current_activity_ w t = tls0 t) /\
  (done_ w = true -> promise_holder_ w = None) /\
  (done_ w = false -> promise_holder_ w <> None) /\
  (done_ w = false -> on_done_calls w = []) /\
  Forall genuine (on_done_calls w).

(** While thread [t] polls, after at least [n] polls. *)
Definition sound_polling (tls0 : Tid -> Activity.ptr) (t : Tid) (n : nat)
    (w : world) : Prop :=
  mu_ w = Some t /\
  g_current_activity_ w t = Some this /\
  (forall t', t' <> t -> g_current_activity_ w t' = tls0 t') /\
  done_ w = false /\
  promise_holder_ w <> None /\
  on_done_calls w = [] /\
  n <= polls w.

(** When the loop that began after [n] polls has returned [r]. *)
Definition sound_after (tls0 : Tid -> Activity.ptr) (t : Tid) (n : nat)
    (r : option ResultType) (w : world) : Prop :=
  mu_ w = Some t /\
  g_current_activity_ w t = Some this /\
  (forall t', t' <> t -> g_current_activity_ w t' = tls0 t') /\
  on_done_calls w = [] /\
  S n <= polls w /\
  match r with
  | None =>
      done_ w = false /\ promise_holder_ w <> None /\
      action_during_run_ w = kNone
  | Some s => done_ w = true /\ promise_holder_ w = None /\ genuine s
  end.

(** The ways an execution never stops. *)
Definition sound_stop (f : option failure) (w : world) : Prop :=
  f <> Some AssertIsCurrent /\
  f <> Some AssertNotDone /\
  f <> Some NoPromise /\
  Forall genuine (on_done_calls w).

(** The object has been deleted exactly when nobody holds a reference,
    while the contract is kept. *)
Definition reclaimed (w : world) : Prop :=
  misused w = false -> (deleted w = true <-> holders w = 0%Z).

(** Thread [t] holds the mutex of an activity that is not done, before the
    scope of a poll. *)
Definition sound_locked (tls0 : Tid -> Activity.ptr) (t : Tid) (n : nat)
    (w : world) : Prop :=
  mu_ w = Some t /\
  (forall t', g_current_activity_ w t' = tls0 t') /\
  done_ w = false /\
  on_done_calls w = [] /\
  n <= polls w.

(** Thread [t] has left the scope of a poll that returned [r]. *)
Definition sound_ran (tls0 : Tid -> Activity.ptr) (t : Tid) (n : nat)
    (r : option ResultType) (w : world) : Prop :=
  mu_ w = Some t /\
  (forall t', g_current_activity_ w t' = tls0 t') /\
  on_done_calls w = [] /\
  S n <= polls w /\
  match r with
  | None => done_ w = false /\ promise_holder_ w <> None
  | Some s => done_ w = true /\ promise_holder_ w = None /\ genuine s
  end.

(** *** Proof rules and tactics *)

Lemma triple_bind {A B : Type} (P : world -> Prop) (m : M A) (k : A -> M B)
    (Q : A -> world -> Prop) (Q' : B -> world -> Prop)
    (E : option failure -> world -> Prop) :
  triple P m Q E ->
  (forall a, triple (Q a) (k a) Q' E) ->
  triple P (bind m k) Q' E.
Proof.
  intros Hm Hk w HP. unfold bind.
  specialize (Hm w HP). destruct (m w) as [a w'|f w'|w']; auto.
  now apply Hk.
Qed.

(** Evaluate the straight-line methods on a world given field by field. *)
Ltac eval_methods :=
  cbv beta iota zeta delta
    [do_op alive contract take_waker can_name require flag_misuse
     Wakeup Drop Cancel Orphan MakeOwningWaker ForceWakeup
     ForceImmediateRepoll WakeupComplete Unref Ref dtor MarkDone
     SetActionDuringRun GotActionDuringRun exchange_wakeup_scheduled
     ScheduleWakeup on_done_ is_current AssertHeld_ Lock Unlock
     ScopedActivity_enter ScopedActivity_leave store_current scheduler_take
     deliver_all deliver app
     GPR_ASSERT bind ret gets modify fail std_exchange std_max
     Waker.Wakeup Waker.Take Waker.ctor Waker.dtor Waker.wakeable_
     Activity.ScopedActivity.ctor Activity.ScopedActivity.dtor
     Activity.ScopedActivity.prior_activity_
     Activity.is_current activity_detail.unwakeable
     mu_ refs_ action_during_run_ done_ wakeup_scheduled_ promise_holder_
     g_current_activity_ deleted on_done_calls scheduled polls wakers primary
     misused
     set_mu set_refs set_action set_done set_wakeup_scheduled set_promise
     set_current set_deleted set_on_done_calls set_scheduled set_polls
     set_wakers set_primary set_misused
     always_inv stopped counted idle_inv resting polling_inv holders b2n
     ActionDuringRun_lt ActionDuringRun_value negb andb orb] in *.

Ltac eval_goal :=
  cbv beta iota zeta delta
    [do_op alive contract take_waker can_name require flag_misuse
     Wakeup Drop Cancel Orphan MakeOwningWaker ForceWakeup
     ForceImmediateRepoll WakeupComplete Unref Ref dtor MarkDone
     SetActionDuringRun GotActionDuringRun exchange_wakeup_scheduled
     ScheduleWakeup on_done_ is_current AssertHeld_ Lock Unlock
     ScopedActivity_enter ScopedActivity_leave store_current scheduler_take
     deliver_all deliver app
     GPR_ASSERT bind ret gets modify fail std_exchange std_max
     Waker.Wakeup Waker.Take Waker.ctor Waker.dtor Waker.wakeable_
     Activity.ScopedActivity.ctor Activity.ScopedActivity.dtor
     Activity.ScopedActivity.prior_activity_
     Activity.is_current activity_detail.unwakeable
     mu_ refs_ action_during_run_ done_ wakeup_scheduled_ promise_holder_
     g_current_activity_ deleted on_done_calls scheduled polls wakers primary
     misused
     set_mu set_refs set_action set_done set_wakeup_scheduled set_promise
     set_current set_deleted set_on_done_calls set_scheduled set_polls
     set_wakers set_primary set_misused
     always_inv stopped counted idle_inv resting polling_inv holders b2n
     ActionDuringRun_lt ActionDuringRun_value negb andb orb].


Ltac case_step :=
  match goal with
  | |- context [match ?x with _ => _ end] => is_var x; destruct x
  | |- context [Nat.eqb ?a ?b] => destruct (Nat.eqb_spec a b)
  | |- context [Z.eqb ?a ?b] => destruct (Z.eqb_spec a b)
  | |- context [Z.ltb ?a ?b] => destruct (Z.ltb_spec a b)
  | |- context [Activity.ptr_eqb (Some ?a) (?g ?t)] =>
      destruct (Activity.ptr_eqb (Some a) (g t)) eqn:?
  end; eval_goal.

Lemma is_current_polling (t : Tid) (extra : Z) (m0 : bool) (w : world) (t' : Tid) :
  polling_inv t extra m0 w ->
  Activity.is_current this (g_current_activity_ w t') = Nat.eqb t' t.
Proof.
  intros (_ & Hg & _). specialize (Hg t').
  unfold Activity.is_current, Activity.ptr_eqb.
  destruct (g_current_activity_ w t') as [a|].
  - destruct (Nat.eqb_spec this a) as [->|Hne].
    + symmetry. apply Nat.eqb_eq. now apply Hg.
    + symmetry. apply Nat.eqb_neq. intro Ht. apply Hg in Ht. congruence.
  - symmetry. apply Nat.eqb_neq. intro Ht. apply Hg in Ht. discriminate.
Qed.

Ltac split_hyps :=
  repeat match goal with
         | H : _ /\ _ |- _ => destruct H
         | H : _ \/ _ |- _ => destruct H
         end;
  subst.

Ltac break_hyps :=
  split_hyps;
  try discriminate;
  repeat (match goal with
          | H : ?a = ?a -> _ |- _ => specialize (H eq_refl)
          | H : context [match ?x with _ => _ end] |- _ => is_var x; destruct x
          | H : ?P -> ?a = ?b |- _ =>
              is_constructor a; is_constructor b;
              let N := fresh "N" in
              assert (N : ~ P)
                by (let X := fresh in intro X; discriminate (H X));
              clear H
          | H : length ?l = 0 |- _ => is_var l; destruct l; [|discriminate H]
          end;
          split_hyps);
  try discriminate.

Ltac close_goal :=
  solve [ auto | congruence | lia | exfalso; lia
        | rewrite ?Z.mod_small by lia; lia
        | simpl in *; solve [discriminate | lia]
        | Z.to_euclidean_division_equations; lia ].

Ltac solve_inv :=
  eval_methods;
  change (2 ^ 32)%Z with 4294967296%Z in *;
  break_hyps;
  repeat match goal with
         | |- _ /\ _ => split
         | |- _ -> _ => intro
         end;
  break_hyps;
  repeat match goal with
         | |- context [Nat.eqb ?a ?b] => destruct (Nat.eqb a b)
         end;
  try close_goal;
  try (match goal with
       | H : ?m = false -> _ |- _ =>
           is_var m; destruct m; break_hyps; close_goal
       end).

Lemma do_op_polling (t : Tid) (extra : Z) (m0 : bool) (t' : Tid) (op : Op) :
  triple (polling_inv t extra m0) (do_op t' op)
         (fun _ => polling_inv t extra m0) stopped.
Proof.
  intros w Hw.
  pose proof (is_current_polling t' Hw) as Hc.
  destruct w; destruct op; eval_methods; rewrite ?Hc.
  all: repeat case_step.
  all: solve_inv.
Qed.

Lemma is_current_idle (w : world) (t' : Tid) :
  idle_inv w ->
  Activity.is_current this (g_current_activity_ w t') = false.
Proof.
  intros (_ & Hg & _). specialize (Hg t').
  unfold Activity.is_current, Activity.ptr_eqb.
  destruct (g_current_activity_ w t') as [a|]; [|reflexivity].
  apply Nat.eqb_neq. congruence.
Qed.

Lemma do_op_idle (t' : Tid) (op : Op) :
  triple idle_inv (do_op t' op) (fun _ => idle_inv) stopped.
Proof.
  intros w Hw.
  pose proof (is_current_idle t' Hw) as Hc.
  destruct w; destruct op; eval_methods; rewrite ?Hc.
  all: repeat case_step.
  all: solve_inv.
Qed.


Lemma poll_frame_refl (w : world) : poll_frame w w.
Proof. unfold poll_frame. repeat split. lia. Qed.

Lemma poll_frame_trans (w1 w2 w3 : world) :
  poll_frame w1 w2 -> poll_frame w2 w3 -> poll_frame w1 w3.
Proof.
  unfold poll_frame. intros (H1 & H2 & H3) (H4 & H5 & H6).
  repeat split; try congruence. lia.
Qed.

Lemma do_op_polling_frame (t : Tid) (extra : Z) (m0 : bool) (t' : Tid) (op : Op) (w : world) :
  polling_inv t extra m0 w ->
  match do_op t' op w with
  | Ok _ w' =>
      poll_frame w w' /\
      (t' = t -> op = OpCancel -> action_during_run_ w' = kCancel) /\
      (t' = t -> op = OpWakeup \/ op = OpForceWakeup \/ op = OpForceImmediateRepoll ->
       (1 <= ActionDuringRun_value (action_during_run_ w'))%Z)
  | _ => True
  end.
Proof.
  intros Hw.
  pose proof (is_current_polling t' Hw) as Hc.
  assert (Ht : t' = t -> Nat.eqb t' t = true) by (intros ->; apply Nat.eqb_refl).
  unfold poll_frame.
  destruct w; destruct op; eval_methods; rewrite ?Hc.
  all: repeat case_step.
  all: try exact I.
  all: solve_inv.
Qed.

Lemma triple_ret {A : Type} (P : world -> Prop) (a : A)
    (E : option failure -> world -> Prop) :
  triple P (ret a) (fun _ => P) E.
Proof. intros w Hw. exact Hw. Qed.

Lemma do_ops_polling (t : Tid) (extra : Z) (m0 : bool) (ops : list (Tid * Op)) :
  triple (polling_inv t extra m0) (do_ops ops)
         (fun _ => polling_inv t extra m0) stopped.
Proof.
  induction ops as [|[t' op] ops IH].
  - apply triple_ret.
  - simpl. eapply triple_bind; [apply do_op_polling|]. intros []. exact IH.
Qed.

Lemma do_ops_polling_frame (t : Tid) (extra : Z) (m0 : bool) (ops : list (Tid * Op)) :
  forall w : world,
    polling_inv t extra m0 w ->
    match do_ops ops w with
    | Ok _ w' =>
        poll_frame w w' /\
        (In (t, OpCancel) ops -> action_during_run_ w' = kCancel) /\
        (In (t, OpWakeup) ops \/ In (t, OpForceWakeup) ops \/
         In (t, OpForceImmediateRepoll) ops ->
         (1 <= ActionDuringRun_value (action_during_run_ w'))%Z)
    | _ => True
    end.
Proof.
  induction ops as [|[t' op] ops IH]; intros w Hw.
  - simpl. split; [apply poll_frame_refl|]. split; [intros []|intros [[]|[[]|[]]]].
  - simpl. unfold bind.
    pose proof (do_op_polling t' op Hw) as Hinv.
    pose proof (do_op_polling_frame t' op Hw) as Hfr.
    destruct (do_op t' op w) as [[] w1|f w1|w1]; auto.
    destruct Hfr as (Hf1 & Hc1 & Hw1).
    specialize (IH w1 Hinv).
    destruct (do_ops ops w1) as [[] w2|f w2|w2]; auto.
    destruct IH as (Hf2 & Hc2 & Hw2).
    split; [eapply poll_frame_trans; eauto|].
    assert (Hmono : (ActionDuringRun_value (action_during_run_ w1)
                     <= ActionDuringRun_value (action_during_run_ w2))%Z)
      by apply Hf2.
    split.
    + intros [Heq|Hin]; [|auto].
      injection Heq as -> ->. specialize (Hc1 eq_refl eq_refl).
      rewrite Hc1 in Hmono. destruct (action_during_run_ w2); simpl in *; auto; lia.
    + intros Hin.
      assert (Hhere : (t' = t /\ (op = OpWakeup \/ op = OpForceWakeup \/
                                   op = OpForceImmediateRepoll)) \/
                      (In (t, OpWakeup) ops \/ In (t, OpForceWakeup) ops \/
                       In (t, OpForceImmediateRepoll) ops)).
      { destruct Hin as [[Heq|Hin]|[[Heq|Hin]|[Heq|Hin]]]; auto;
          injection Heq as -> ->; left; auto. }
      destruct Hhere as [[-> Hop]|Hrest]; [|auto].
      specialize (Hw1 eq_refl Hop). lia.
Qed.

Ltac eval_all :=
  cbv beta iota zeta delta [after_loop resting locked after_run] in *;
  eval_methods.

Lemma loop_ready (t : Tid) (extra : Z) (m0 : bool) (x : ResultType) :
  triple (polling_inv t extra m0) (bind MarkDone (fun _ => ret (Some x)))
         (after_loop t extra m0) stopped.
Proof.
  intros w Hw. destruct w. eval_all.
  repeat case_step; eval_all; solve_inv.
Qed.

Lemma loop_pending (t : Tid) (extra : Z) (m0 : bool) (k : M (option ResultType)) :
  triple (polling_inv t extra m0) k (after_loop t extra m0) stopped ->
  triple (polling_inv t extra m0)
         (bind GotActionDuringRun (fun a =>
            match a with
            | kNone => ret None
            | kWakeup => k
            | kCancel => bind MarkDone (fun _ => ret (Some CancelledError))
            end))
         (after_loop t extra m0) stopped.
Proof.
  intros Hk w Hw. destruct w. eval_all.
  destruct action_during_run_0.
  - eval_all. solve_inv.
  - apply Hk. eval_all. solve_inv.
  - eval_all. repeat case_step; eval_all; solve_inv.
Qed.

Lemma call_promise_polling (t : Tid) (extra : Z) (m0 : bool) :
  triple (polling_inv t extra m0) call_promise
         (fun _ => polling_inv t extra m0) stopped.
Proof.
  intros w Hw. unfold call_promise, bind at 1, gets.
  destruct (promise_holder_ w) as [ps|] eqn:Hp.
  - destruct (poll ps) as [[ps' ops] r].
    assert (Hw' : polling_inv t extra m0
                    (set_promise (Some ps') (set_polls (S (polls w)) w))).
    { destruct w. eval_all. exact Hw. }
    pose proof (do_ops_polling ops Hw') as Hops.
    unfold bind, modify, ret.
    destruct (do_ops ops _) as [[] w1|f w1|w1]; exact Hops.
  - unfold fail. destruct w. eval_all. solve_inv.
Qed.

Lemma StepLoop_while_polling (t : Tid) (extra : Z) (m0 : bool) (fuel : nat) :
  triple (polling_inv t extra m0) (StepLoop_while fuel)
         (after_loop t extra m0) stopped.
Proof.
  induction fuel as [|fuel IH].
  - intros w Hw. simpl. unfold out_of_fuel. destruct w. eval_all. solve_inv.
  - cbn [StepLoop_while].
    eapply triple_bind with (Q := fun d w => d = false /\ polling_inv t extra m0 w).
    { intros w Hw. unfold gets. split; [apply Hw|exact Hw]. }
    intros d. eapply triple_bind with (Q := fun _ => polling_inv t extra m0).
    { intros w [-> Hw]. exact Hw. }
    intros _. eapply triple_bind; [apply call_promise_polling|].
    intros [|x].
    + apply loop_pending. exact IH.
    + apply loop_ready.
Qed.

Lemma StepLoop_polling (t : Tid) (extra : Z) (m0 : bool) (fuel : nat) :
  triple (polling_inv t extra m0) (StepLoop fuel t)
         (after_loop t extra m0) stopped.
Proof.
  intros w Hw. unfold StepLoop, bind at 1, is_current, gets.
  rewrite (is_current_polling t Hw), Nat.eqb_refl.
  unfold GPR_ASSERT, bind, ret. now apply StepLoop_while_polling.
Qed.

Lemma triple_pure {A : Type} (phi : Prop) (P : world -> Prop) (m : M A)
    (Q : A -> world -> Prop) (E : option failure -> world -> Prop) :
  (phi -> triple P m Q E) ->
  triple (fun w => P w /\ phi) m Q E.
Proof. intros H w [HP Hphi]. now apply H. Qed.

Lemma enter_locked (t : Tid) (extra : Z) (m0 : bool) :
  triple (locked t extra m0) (ScopedActivity_enter t)
         (fun s w =>
            polling_inv t extra m0 w /\
            Activity.ScopedActivity.prior_activity_ s <> Some this)
         stopped.
Proof.
  intros w Hw. destruct w. eval_all.
  split; [|apply Hw].
  destruct Hw as (Hmu & Hg & Hrest).
  split; [exact Hmu|]. split.
  - intros t'. destruct (Nat.eqb_spec t' t) as [->|Hne].
    + tauto.
    + split; [intro H; now apply Hg in H|congruence].
  - solve_inv.
Qed.

Lemma leave_after_loop (t : Tid) (extra : Z) (m0 : bool) (s : Activity.ScopedActivity.t)
    (r : option ResultType) :
  Activity.ScopedActivity.prior_activity_ s <> Some this ->
  triple (after_loop t extra m0 r)
         (bind (ScopedActivity_leave t s) (fun _ => ret r))
         (after_run t extra m0) stopped.
Proof.
  intros Hs w Hw. destruct w, s. eval_all.
  destruct Hw as (Hmu & Hg & Hrest).
  split; [exact Hmu|]. split.
  - intros t'. destruct (Nat.eqb_spec t' t) as [->|Hne]; [exact Hs|].
    intro H. now apply Hg in H.
  - exact Hrest.
Qed.

Lemma scoped_poll (t : Tid) (extra : Z) (m0 : bool) (body : M (option ResultType)) :
  triple (polling_inv t extra m0) body (after_loop t extra m0) stopped ->
  triple (locked t extra m0)
         (bind (ScopedActivity_enter t) (fun s =>
          bind body (fun r =>
          bind (ScopedActivity_leave t s) (fun _ => ret r))))
         (after_run t extra m0) stopped.
Proof.
  intros Hbody.
  eapply triple_bind; [apply enter_locked|].
  intros s. apply triple_pure. intros Hs.
  eapply triple_bind; [exact Hbody|].
  intros r. now apply leave_after_loop.
Qed.

Lemma RunStep_locked (t : Tid) (extra : Z) (m0 : bool) (fuel : nat) :
  triple (locked t extra m0) (RunStep fuel t) (after_run t extra m0) stopped.
Proof. apply scoped_poll, StepLoop_polling. Qed.

Lemma Start_locked (t : Tid) (extra : Z) (m0 : bool) (fuel : nat) (ps0 : PS) :
  triple (locked t extra m0) (Start fuel t ps0) (after_run t extra m0) stopped.
Proof.
  unfold Start.
  eapply triple_bind; [apply enter_locked|].
  intros s. apply triple_pure. intros Hs.
  eapply triple_bind with (Q := fun _ => polling_inv t extra m0).
  { intros w Hw. destruct w. eval_all. exact Hw. }
  intros _.
  eapply triple_bind; [apply StepLoop_polling|].
  intros r. now apply leave_after_loop.
Qed.

Lemma finish_call (t : Tid) (extra : Z) (m0 : bool) (status : option ResultType) :
  triple (fun w => after_run t extra m0 status w /\
                   (misused w = false -> primary w <> Constructing))
         (bind (Unlock t) (fun _ =>
            match status with
            | Some s => on_done_ s
            | None => ret tt
            end))
         (fun _ w => resting extra w /\ deleted w = false /\
                     (m0 = true -> misused w = true)) stopped.
Proof.
  intros w [Hw Hp]. destruct w, status; eval_all; solve_inv.
Qed.

Lemma after_run_primary (t : Tid) (extra : Z) (m0 : bool)
    (r : option ResultType) (w : world) :
  after_run t extra m0 r w ->
  (m0 = false -> (1 <= extra)%Z) ->
  misused w = false -> primary w <> Constructing.
Proof.
  unfold after_run. intros (_ & _ & _ & _ & _ & _ & Hm0 & Hs) Hx Hm.
  destruct (Hs Hm) as (_ & _ & Hc & _). intro H. apply Hc in H.
  destruct m0; [specialize (Hm0 eq_refl); congruence|].
  specialize (Hx eq_refl). lia.
Qed.

Lemma Step_resting (t : Tid) (extra : Z) (fuel : nat) (m0 : bool) :
  triple (fun w => resting extra w /\ deleted w = false /\
                   misused w = m0 /\ (m0 = false -> (1 <= extra)%Z))
         (Step fuel t)
         (fun _ w => resting extra w /\ deleted w = false /\
                     (m0 = true -> misused w = true)) stopped.
Proof.
  intros w (Hw & Hdel & Hm & Hx). unfold Step, bind at 1, Lock, bind at 1, gets.
  assert (Hmu : mu_ w = None) by apply Hw. rewrite Hmu.
  unfold modify, bind at 1, gets.
  cbn [done_ set_mu].
  destruct (done_ w) eqn:Hd.
  - destruct w. eval_all. solve_inv.
  - assert (Hl : locked t extra m0 (set_mu (Some t) w)).
    { destruct w. eval_all. solve_inv. }
    pose proof (RunStep_locked fuel Hl) as Hrun.
    unfold bind at 1.
    destruct (RunStep fuel t (set_mu (Some t) w)) as [status w1|f w1|w1]; auto.
    apply finish_call. split; [exact Hrun|].
    eapply after_run_primary; eauto.
Qed.

(** The scheduler runs a request: the prefix of [RunScheduledWakeup] up to
    its assertion. *)
Lemma scheduled_wakeup_begins :
  triple idle_inv
         (bind alive (fun _ => bind scheduler_take (fun _ =>
          bind (exchange_wakeup_scheduled false) (fun old =>
          GPR_ASSERT old AssertWakeupScheduled))))
         (fun _ w => resting 1 w /\ deleted w = false)
         stopped.
Proof.
  intros w Hw. destruct w. eval_all.
  repeat case_step; solve_inv.
Qed.

Lemma wakeup_completes :
  triple (fun w => resting 1 w /\ deleted w = false)
         WakeupComplete (fun _ => idle_inv) stopped.
Proof.
  intros w [Hw Hd]. destruct w. eval_all.
  repeat case_step; solve_inv.
Qed.

Lemma do_event_idle (fuel : nat) (e : event) :
  triple idle_inv (do_event fuel e) (fun _ => idle_inv) stopped.
Proof.
  destruct e as [t op|t|t]; cbn [do_event].
  - apply do_op_idle.
  - intros w Hw. pose proof (scheduled_wakeup_begins Hw) as Hpre.
    unfold RunScheduledWakeup. unfold bind in *.
    destruct (alive w) as [[] w1|f w1|w1]; auto.
    destruct (scheduler_take w1) as [[] w2|f w2|w2]; auto.
    destruct (exchange_wakeup_scheduled false w2) as [old w3|f w3|w3]; auto.
    destruct (GPR_ASSERT old AssertWakeupScheduled w3) as [[] w4|f w4|w4]; auto.
    destruct Hpre as [Hr Hd].
    assert (Hstep : resting 1 w4 /\ deleted w4 = false /\
                    misused w4 = misused w4 /\
                    (misused w4 = false -> (1 <= 1)%Z))
      by (split; [exact Hr|split; [exact Hd|split; [reflexivity|intros _; lia]]]).
    apply (Step_resting t fuel) in Hstep.
    destruct (Step fuel t w4) as [[] w5|f w5|w5]; auto.
    apply wakeup_completes. tauto.
  - intros w Hw. unfold bind at 1.
    assert (Ha : match alive w with
                 | Ok _ w' => w' = w /\ deleted w = false
                 | Fail f w' => stopped (Some f) w'
                 | OutOfFuel _ => False
                 end).
    { destruct w. eval_all. repeat case_step; solve_inv. }
    destruct (alive w) as [[] w1|f w1|w1]; auto; [|contradiction].
    destruct Ha as [-> Hd].
    unfold bind at 1, flag_misuse, modify.
    assert (Hstep : resting 0 (set_misused true w) /\
                    deleted (set_misused true w) = false /\
                    misused (set_misused true w) = true /\
                    (true = false -> (1 <= 0)%Z)).
    { destruct w. eval_all. solve_inv. }
    apply (Step_resting t fuel) in Hstep.
    destruct (Step fuel t (set_misused true w)) as [[] w5|f w5|w5]; auto.
    apply Hstep.
Qed.

Lemma run_idle (fuel : nat) (evs : list event) :
  triple idle_inv (run fuel evs) (fun _ => idle_inv) stopped.
Proof.
  induction evs as [|e evs IH]; cbn [run].
  - apply triple_ret.
  - eapply triple_bind; [apply do_event_idle|]. intros []. exact IH.
Qed.

Lemma MakeActivity_idle (fuel : nat) (tls : Tid -> Activity.ptr) (t : Tid)
    (ps0 : PS) :
  (forall t', tls t' <> Some this) ->
  match MakeActivity fuel t ps0 (allocated tls) with
  | Ok _ w => idle_inv w
  | Fail f w => stopped (Some f) w
  | OutOfFuel w => stopped None w
  end.
Proof.
  intros Htls. unfold MakeActivity, ctor, bind at 1, bind at 1, Lock, bind at 1.
  unfold gets, modify. cbn [allocated mu_].
  assert (Hl : locked t 0 false (set_mu (Some t) (allocated tls))).
  { unfold allocated. eval_all. solve_inv. }
  pose proof (Start_locked fuel ps0 Hl) as Hrun.
  unfold bind at 1.
  destruct (Start fuel t ps0 _) as [status w1|f w1|w1]; auto.
  destruct w1, status; eval_all; solve_inv.
Qed.

(** Every execution keeps the invariants: between calls [idle_inv], and
    [stopped] wherever it ends early. *)
Lemma execution_invariant (fuel : nat) (tls : Tid -> Activity.ptr) (t : Tid)
    (ps0 : PS) (evs : list event) :
  (forall t', tls t' <> Some this) ->
  match execution fuel tls t ps0 evs with
  | Ok _ w => idle_inv w
  | Fail f w => stopped (Some f) w
  | OutOfFuel w => stopped None w
  end.
Proof.
  intros Htls. unfold execution, bind.
  pose proof (@MakeActivity_idle fuel tls t ps0 Htls) as Hm.
  destruct (MakeActivity fuel t ps0 (allocated tls)) as [[] w|f w|w]; auto.
  now apply run_idle.
Qed.

Lemma idle_always (w : world) : idle_inv w -> always_inv w.
Proof.
  unfold idle_inv, always_inv. intros (_ & _ & Hs & Hl & Hd & _).
  split; [exact Hs|]. rewrite Hl.
  destruct (done_ w); simpl; repeat split; auto; lia.
Qed.

(** *** The properties of the activity *)

(** C4: an off-thread [Wakeup] exchanges [wakeup_scheduled_] with [true]:
    when the flag was [false] it hands the activity to the scheduler (one
    more request, reference kept); when it was [true] it only calls
    [WakeupComplete].  [RunScheduledWakeup] stops unless the flag was
    [true] and has cleared it before [Step] runs.  Hence, in every
    execution, wherever it ends, the number of requests the scheduler
    holds is 1 when the flag is [true] and 0 when it is [false]: never
    more than one request, and the flag is [true] exactly when there is
    one.  (The memory order of the exchange is outside the model.) *)
Theorem C4_wakeup_scheduled_gates_one_request :
  (forall (t : Tid) (w : world),
      Activity.is_current this (g_current_activity_ w t) = false ->
      Wakeup t w =
      if wakeup_scheduled_ w then WakeupComplete w
      else Ok tt (set_scheduled (S (scheduled w))
                    (set_wakeup_scheduled true w))) /\
  (forall (fuel : nat) (t : Tid) (w : world),
      RunScheduledWakeup fuel t w =
      if wakeup_scheduled_ w
      then bind (Step fuel t) (fun _ => WakeupComplete)
                (set_wakeup_scheduled false w)
      else Fail AssertWakeupScheduled (set_wakeup_scheduled false w)) /\
  (forall (fuel : nat) (tls : Tid -> Activity.ptr) (t : Tid) (ps0 : PS)
          (evs : list event),
      (forall t', tls t' <> Some this) ->
      let w := final (execution fuel tls t ps0 evs) in
      scheduled w = (if wakeup_scheduled_ w then 1 else 0) /\
      scheduled w <= 1 /\
      (wakeup_scheduled_ w = true <-> scheduled w = 1)).
Proof.
  split; [|split].
  - intros t w Hc. unfold Wakeup, bind at 1, is_current, gets. rewrite Hc.
    unfold exchange_wakeup_scheduled, bind, gets, modify, ret, std_exchange,
      ScheduleWakeup.
    destruct w as [? ? ? ? []]; reflexivity.
  - intros fuel t w.
    unfold RunScheduledWakeup, exchange_wakeup_scheduled, GPR_ASSERT.
    unfold bind at 1 2 3, gets, modify, ret, std_exchange, fail.
    destruct w as [? ? ? ? []]; reflexivity.
  - intros fuel tls t ps0 evs Htls w.
    assert (Hs : scheduled w = b2n (wakeup_scheduled_ w)).
    { subst w. pose proof (@execution_invariant fuel tls t ps0 evs Htls) as H.
      destruct (execution fuel tls t ps0 evs) as [[] w|f w|w]; cbn [final].
      - apply idle_always in H. apply H.
      - apply H.
      - apply H. }
    unfold b2n in Hs. rewrite Hs.
    destruct (wakeup_scheduled_ w); repeat split; auto; discriminate.
Qed.

(** C7: in every execution in which the clients keep to the usage contract
    (an owning Waker is fired or dropped once, the ActivityPtr is orphaned
    once after construction, the scheduler runs only requests it was
    given, [Step] is not called directly, fewer than 2^32 references),
    [GPR_ASSERT(done_)] of the destructor never fails, and whenever the
    object has been deleted [done_] is true. *)
Theorem C7_destructor_finds_done :
  forall (fuel : nat) (tls : Tid -> Activity.ptr) (t : Tid) (ps0 : PS)
         (evs : list event),
    (forall t', tls t' <> Some this) ->
    misused (final (execution fuel tls t ps0 evs)) = false ->
    (forall w, execution fuel tls t ps0 evs <> Fail AssertDone w) /\
    (deleted (final (execution fuel tls t ps0 evs)) = true ->
     done_ (final (execution fuel tls t ps0 evs)) = true).
Proof.
  intros fuel tls t ps0 evs Htls Hm.
  pose proof (@execution_invariant fuel tls t ps0 evs Htls) as H.
  destruct (execution fuel tls t ps0 evs) as [[] w|f w|w]; cbn [final] in *.
  - split; [discriminate|]. apply idle_always in H. apply H.
  - destruct H as [Ha Hf]. split; [|apply Ha].
    intros w' Heq. injection Heq as -> ->.
    specialize (Hf eq_refl). congruence.
  - split; [discriminate|]. apply H.
Qed.

Lemma Step_when_done (fuel : nat) (t : Tid) (w : world) :
  done_ w = true -> mu_ w = None ->
  Step fuel t w = Ok tt (set_mu None w).
Proof.
  intros Hd Hmu. unfold Step, Lock, Unlock, bind, gets, modify.
  rewrite Hmu. cbn [done_ set_mu]. rewrite Hd. reflexivity.
Qed.

Lemma Cancel_outside_poll (t : Tid) (w : world) :
  Activity.is_current this (g_current_activity_ w t) = false ->
  mu_ w = None ->
  exists w',
    Cancel t w = Ok tt w' /\
    done_ w' = true /\
    polls w' = polls w /\
    on_done_calls w' =
      (if done_ w then on_done_calls w
       else on_done_calls w ++ [CancelledError]).
Proof.
  intros Hc Hmu. unfold Cancel, bind at 1, is_current, gets. rewrite Hc.
  destruct w. cbn [mu_] in Hmu. subst. eval_goal.
  destruct done_0; eval_goal; eexists; repeat split.
Qed.

Lemma do_op_keeps_done (t : Tid) (op : Op) (w : world) :
  idle_inv w ->
  match do_op t op w with
  | Ok _ w' => (done_ w = true \/ op = OpCancel \/ op = OpOrphan) ->
               done_ w' = true
  | _ => True
  end.
Proof.
  intros Hw.
  pose proof (is_current_idle t Hw) as Hc.
  destruct w; destruct op; eval_methods; rewrite ?Hc.
  all: repeat case_step.
  all: try exact I.
  all: intros [?|[?|?]]; auto; discriminate.
Qed.

Lemma do_event_keeps_done (fuel : nat) (e : event) (w : world) :
  idle_inv w ->
  match do_event fuel e w with
  | Ok _ w' => (done_ w = true \/ cancels e = true) -> done_ w' = true
  | _ => True
  end.
Proof.
  intros Hw. destruct e as [t op|t|t]; cbn [do_event cancels].
  - pose proof (do_op_keeps_done t op Hw) as H.
    destruct (do_op t op w) as [[] w'|f w'|w']; auto.
    intros [Hd|Hc]; apply H; auto.
    destruct op; try discriminate; auto.
  - assert (Hmu : mu_ w = None) by apply Hw. clear Hw.
    destruct w. cbn [mu_] in Hmu. subst. destruct done_0.
    + unfold RunScheduledWakeup. eval_goal.
      repeat case_step; try exact I.
      all: rewrite Step_when_done by reflexivity; eval_goal.
      all: repeat case_step; auto.
    + match goal with
      | |- match ?m with _ => _ end => destruct m
      end; auto.
      intros [?|?]; discriminate.
  - assert (Hmu : mu_ w = None) by apply Hw. clear Hw.
    destruct w. cbn [mu_] in Hmu. subst. destruct done_0.
    + eval_goal. repeat case_step; try exact I.
      all: rewrite Step_when_done by reflexivity; eval_goal; auto.
    + match goal with
      | |- match ?m with _ => _ end => destruct m
      end; auto.
      intros [?|?]; discriminate.
Qed.

Lemma run_keeps_done (fuel : nat) (evs : list event) :
  forall w : world,
    idle_inv w ->
    match run fuel evs w with
    | Ok _ w' => (done_ w = true \/ existsb cancels evs = true) ->
                 done_ w' = true
    | _ => True
    end.
Proof.
  induction evs as [|e evs IH]; intros w Hw; cbn [run existsb].
  - unfold ret. intros [?|?]; auto; discriminate.
  - unfold bind.
    pose proof (do_event_idle fuel e Hw) as Hi.
    pose proof (do_event_keeps_done fuel e Hw) as Hd.
    destruct (do_event fuel e w) as [[] w1|f w1|w1]; auto.
    specialize (IH w1 Hi).
    destruct (run fuel evs w1) as [[] w2|f w2|w2]; auto.
    intros [H|H]; apply IH.
    + left. apply Hd. now left.
    + apply orb_true_iff in H. destruct H as [H|H]; [left|now right].
      apply Hd. now right.
Qed.

(** C1 (amended): in every execution, wherever it ends, [on_done_] has
    been invoked at most once, and only after [done_] was set; when the
    execution returns, it has been invoked exactly once if the activity is
    done and not at all otherwise, and the activity is done whenever
    [Cancel] or [Orphan] was called between polls and whenever the object
    has been deleted, so exactly once over a whole lifetime.  Once [done_]
    is set [Step] returns without polling the promise or invoking the
    callback, and [Cancel] called outside a poll invokes the callback
    exactly when [done_] was false. *)
Theorem C1_on_done_at_most_once :
  (forall (fuel : nat) (tls : Tid -> Activity.ptr) (t : Tid) (ps0 : PS)
          (evs : list event),
      (forall t', tls t' <> Some this) ->
      length (on_done_calls (final (execution fuel tls t ps0 evs))) <= 1 /\
      (length (on_done_calls (final (execution fuel tls t ps0 evs))) = 1 ->
       done_ (final (execution fuel tls t ps0 evs)) = true) /\
      (forall w, execution fuel tls t ps0 evs = Ok tt w ->
                 length (on_done_calls w) = (if done_ w then 1 else 0) /\
                 (existsb cancels evs = true ->
                  length (on_done_calls w) = 1) /\
                 (deleted w = true -> length (on_done_calls w) = 1))) /\
  (forall (fuel : nat) (t : Tid) (w : world),
      done_ w = true -> mu_ w = None ->
      exists w',
        Step fuel t w = Ok tt w' /\
        polls w' = polls w /\
        on_done_calls w' = on_done_calls w /\
        done_ w' = true) /\
  (forall (t : Tid) (w : world),
      Activity.is_current this (g_current_activity_ w t) = false ->
      mu_ w = None ->
      exists w',
        Cancel t w = Ok tt w' /\
        done_ w' = true /\
        polls w' = polls w /\
        on_done_calls w' =
          (if done_ w then on_done_calls w
           else on_done_calls w ++ [CancelledError])).
Proof.
  split; [|split].
  - intros fuel tls t ps0 evs Htls.
    pose proof (@execution_invariant fuel tls t ps0 evs Htls) as H.
    assert (Ha : always_inv (final (execution fuel tls t ps0 evs))).
    { destruct (execution fuel tls t ps0 evs) as [[] w|f w|w]; cbn [final].
      - now apply idle_always.
      - apply H.
      - apply H. }
    destruct Ha as (_ & Hle & Hdone & _).
    split; [exact Hle|]. split; [exact Hdone|].
    intros w Hw. rewrite Hw in H.
    assert (Hlen : length (on_done_calls w) = b2n (done_ w)) by apply H.
    split; [exact Hlen|]. split.
    + intros Hc. rewrite Hlen.
      unfold execution, bind in Hw.
      pose proof (@MakeActivity_idle fuel tls t ps0 Htls) as Hm.
      destruct (MakeActivity fuel t ps0 (allocated tls)) as [[] w1|f w1|w1];
        try discriminate.
      pose proof (run_keeps_done fuel evs Hm) as Hk.
      rewrite Hw in Hk. rewrite Hk; [reflexivity|now right].
    + intros Hdel. rewrite Hlen.
      assert (Hd : done_ w = true).
      { apply idle_always in H. now apply H. }
      now rewrite Hd.
  - intros fuel t w Hd Hmu. exists (set_mu None w).
    split; [now apply Step_when_done|]. destruct w; auto.
  - apply Cancel_outside_poll.
Qed.

Lemma StepLoop_while_step (t : Tid) (extra : Z) (m0 : bool) (fuel : nat)
    (w w1 : world) (r : Poll R) :
  polling_inv t extra m0 w ->
  call_promise w = Ok r w1 ->
  polling_inv t extra m0 w1 /\
  StepLoop_while (S fuel) w =
  match r with
  | Ready x => Ok (Some (IntoStatus x)) (set_promise None (set_done true w1))
  | Pending =>
      match action_during_run_ w1 with
      | kNone => Ok None (set_action kNone w1)
      | kWakeup => StepLoop_while fuel (set_action kNone w1)
      | kCancel =>
          Ok (Some CancelledError)
             (set_promise None (set_done true (set_action kNone w1)))
      end
  end.
Proof.
  intros Hw Hcall.
  pose proof (call_promise_polling Hw) as Hw1. rewrite Hcall in Hw1.
  split; [exact Hw1|].
  assert (Hd : done_ w = false) by apply Hw.
  assert (Hd1 : done_ w1 = false) by apply Hw1.
  cbn [StepLoop_while]. unfold bind at 1, gets. rewrite Hd.
  unfold GPR_ASSERT, negb, ret, bind at 1. unfold bind at 1. rewrite Hcall.
  destruct r as [|x].
  - unfold GotActionDuringRun, bind at 1, gets, std_exchange, bind at 1, modify.
    unfold bind at 1, ret.
    destruct (action_during_run_ w1); try reflexivity.
    unfold MarkDone, bind, gets, modify, ret, GPR_ASSERT.
    cbn [done_ set_action]. rewrite Hd1. reflexivity.
  - unfold MarkDone, bind, gets, modify, ret, GPR_ASSERT.
    rewrite Hd1. reflexivity.
Qed.

Lemma StepLoop_while_fuel (n : nat) :
  forall (m : nat) (w w' : world) (r : option ResultType),
    n <= m ->
    StepLoop_while n w = Ok r w' ->
    StepLoop_while m w = Ok r w'.
Proof.
  induction n as [|n IH]; intros m w w' r Hle H.
  - discriminate H.
  - destruct m as [|m]; [lia|].
    cbn [StepLoop_while] in *. unfold bind in *.
    destruct (gets done_ w) as [d w0|f w0|w0]; try discriminate.
    destruct (GPR_ASSERT (negb d) AssertNotDone w0) as [[] w1|f w1|w1];
      try discriminate.
    destruct (call_promise w1) as [[|x] w2|f w2|w2]; try discriminate;
      [|exact H].
    destruct (GotActionDuringRun w2) as [[| |] w3|f w3|w3]; try discriminate;
      try exact H.
    apply IH; [lia|exact H].
Qed.

Lemma call_promise_result (t : Tid) (extra : Z) (m0 : bool) (w w1 : world)
    (r : Poll R) :
  polling_inv t extra m0 w ->
  call_promise w = Ok r w1 ->
  exists ps ps' ops,
    promise_holder_ w = Some ps /\
    poll ps = (ps', ops, r) /\
    do_ops ops (set_promise (Some ps') (set_polls (S (polls w)) w)) = Ok tt w1 /\
    promise_holder_ w1 = Some ps' /\
    polls w1 = S (polls w).
Proof.
  intros Hw Hcall. unfold call_promise, bind at 1, gets in Hcall.
  destruct (promise_holder_ w) as [ps|] eqn:Hp; [|discriminate].
  destruct (poll ps) as [[ps' ops] r'] eqn:Hpoll.
  unfold bind at 1 2, modify in Hcall.
  assert (Hw' : polling_inv t extra m0
                  (set_promise (Some ps') (set_polls (S (polls w)) w))).
  { destruct w. eval_all. exact Hw. }
  pose proof (do_ops_polling_frame ops Hw') as Hfr.
  unfold bind, ret in Hcall.
  destruct (do_ops ops _) as [[] w2|f w2|w2] eqn:Hops; try discriminate.
  injection Hcall as -> ->.
  exists ps, ps', ops. destruct Hfr as ((Hp1 & Hp2 & _) & _).
  destruct w; cbn in *. repeat split; auto.
Qed.

(** C2: while thread [t] holds the mutex and is current and the activity
    is not done, one iteration of the loop polls the promise; if the poll
    is [Ready x] the loop marks the activity done (the promise is
    destroyed, [done_] set) and returns the converted value; if it is
    [Pending] the recorded action is sampled and cleared, and on [kNone]
    the loop returns nothing with the promise alive and the activity not
    done, on [kWakeup] it goes on with the next iteration, on [kCancel] it
    marks the activity done and returns [CancelledError]; a result
    returned with some fuel is returned with any larger fuel. *)
Theorem C2_StepLoop_poll_cases :
  forall (t : Tid) (extra : Z) (m0 : bool) (fuel : nat) (w w1 : world)
         (r : Poll R),
    polling_inv t extra m0 w ->
    call_promise w = Ok r w1 ->
    mu_ w = Some t /\ mu_ w1 = Some t /\
    polls w1 = S (polls w) /\
    StepLoop (S fuel) t w = StepLoop_while (S fuel) w /\
    StepLoop_while (S fuel) w =
    match r with
    | Ready x => Ok (Some (IntoStatus x)) (set_promise None (set_done true w1))
    | Pending =>
        match action_during_run_ w1 with
        | kNone => Ok None (set_action kNone w1)
        | kWakeup => StepLoop_while fuel (set_action kNone w1)
        | kCancel =>
            Ok (Some CancelledError)
               (set_promise None (set_done true (set_action kNone w1)))
        end
    end /\
    (forall w2 : world,
        done_ (set_promise None (set_done true w2)) = true /\
        promise_holder_ (set_promise None (set_done true w2)) = None) /\
    (done_ (set_action kNone w1) = false /\
     promise_holder_ (set_action kNone w1) <> None /\
     action_during_run_ (set_action kNone w1) = kNone) /\
    (forall (n m : nat) (w0 w' : world) (r' : option ResultType),
        n <= m ->
        StepLoop_while n w0 = Ok r' w' ->
        StepLoop_while m w0 = Ok r' w').
Proof.
  intros t extra m0 fuel w w1 r Hw Hcall.
  destruct (StepLoop_while_step fuel Hw Hcall) as [Hw1 Hstep].
  destruct (call_promise_result Hw Hcall)
    as (ps & ps' & ops & _ & _ & _ & Hp1 & Hpolls).
  split; [apply Hw|]. split; [apply Hw1|]. split; [exact Hpolls|].
  split.
  { unfold StepLoop, bind at 1, is_current, gets.
    rewrite (is_current_polling t Hw), Nat.eqb_refl. reflexivity. }
  split; [exact Hstep|]. split; [intros w2; now destruct w2|].
  split.
  { assert (Hd1 : done_ w1 = false) by apply Hw1.
    destruct w1; cbn in *. repeat split; auto. congruence. }
  intros n m w0 w' r'. apply StepLoop_while_fuel.
Qed.

(** C3: [SetActionDuringRun] stores the maximum of the stored and the new
    action under [kNone < kWakeup < kCancel], so recording a wakeup and a
    cancellation, in either order, leaves [kCancel]; and when the polling
    thread records both a wakeup and a cancellation during a poll that
    returns [Pending], the loop samples [kCancel] and returns
    [CancelledError] with the activity done and no further poll of the
    promise. *)
Theorem C3_cancel_dominates_wakeup :
  forall (t : Tid) (extra : Z) (m0 : bool) (fuel : nat) (w w1 : world)
         (ps ps' : PS) (ops : list (Tid * Op)),
    polling_inv t extra m0 w ->
    promise_holder_ w = Some ps ->
    poll ps = (ps', ops, Pending) ->
    In (t, OpWakeup) ops \/ In (t, OpForceWakeup) ops \/
      In (t, OpForceImmediateRepoll) ops ->
    In (t, OpCancel) ops ->
    call_promise w = Ok Pending w1 ->
    (forall (a : ActionDuringRun) (w0 : world),
        SetActionDuringRun a w0 =
        Ok tt (set_action (std_max ActionDuringRun_lt (action_during_run_ w0) a) w0) /\
        ActionDuringRun_value
          (std_max ActionDuringRun_lt (action_during_run_ w0) a) =
        Z.max (ActionDuringRun_value (action_during_run_ w0))
              (ActionDuringRun_value a)) /\
    (forall a : ActionDuringRun,
        std_max ActionDuringRun_lt (std_max ActionDuringRun_lt a kWakeup) kCancel
        = kCancel /\
        std_max ActionDuringRun_lt (std_max ActionDuringRun_lt a kCancel) kWakeup
        = kCancel) /\
    action_during_run_ w1 = kCancel /\
    StepLoop_while (S fuel) w =
      Ok (Some CancelledError)
         (set_promise None (set_done true (set_action kNone w1))) /\
    polls (set_promise None (set_done true (set_action kNone w1)))
      = S (polls w) /\
    done_ (set_promise None (set_done true (set_action kNone w1))) = true.
Proof.
  intros t extra m0 fuel w w1 ps ps' ops Hw Hp Hpoll Hwake Hcancel Hcall.
  destruct (StepLoop_while_step fuel Hw Hcall) as [Hw1 Hstep].
  destruct (call_promise_result Hw Hcall)
    as (ps1 & ps1' & ops1 & Hp' & Hpoll' & Hops & _ & Hpolls).
  rewrite Hp in Hp'. injection Hp' as <-.
  rewrite Hpoll in Hpoll'. injection Hpoll' as <- <-.
  assert (Hw' : polling_inv t extra m0
                  (set_promise (Some ps') (set_polls (S (polls w)) w))).
  { destruct w. eval_all. exact Hw. }
  pose proof (do_ops_polling_frame ops Hw') as Hfr.
  rewrite Hops in Hfr. destruct Hfr as (_ & Hc & _).
  specialize (Hc Hcancel).
  split.
  { intros a w0. split; [reflexivity|].
    destruct (action_during_run_ w0), a; reflexivity. }
  split; [intros []; split; reflexivity|].
  split; [exact Hc|]. rewrite Hc in Hstep.
  split; [exact Hstep|]. split; [|now destruct w1].
  rewrite <- Hpolls. now destruct w1.
Qed.

(** *** Further properties: actions and owning wakers *)

Lemma record_actions_result (l : list ActionDuringRun) :
  forall w : world,
    record_actions l w
    = Ok tt (set_action (fold_left (std_max ActionDuringRun_lt) l
                           (action_during_run_ w)) w).
Proof.
  induction l as [|a l IH]; intros w; cbn [record_actions fold_left].
  - destruct w. reflexivity.
  - unfold bind, SetActionDuringRun, modify. rewrite IH. destruct w. reflexivity.
Qed.

Lemma fold_max_cancel (l : list ActionDuringRun) :
  forall a : ActionDuringRun,
    fold_left (std_max ActionDuringRun_lt) l a = kCancel <->
    In kCancel (a :: l).
Proof.
  induction l as [|b l IH]; intros a; cbn [fold_left].
  - split; [intros ->; now left|intros [H|[]]; now symmetry].
  - rewrite IH. destruct a, b; cbn; intuition (auto; discriminate).
Qed.

Lemma fold_max_none (l : list ActionDuringRun) :
  forall a : ActionDuringRun,
    fold_left (std_max ActionDuringRun_lt) l a = kNone <->
    (forall b, In b (a :: l) -> b = kNone).
Proof.
  induction l as [|b l IH]; intros a; cbn [fold_left].
  - split; [intros -> b [<-|[]]; reflexivity|intros H; apply H; now left].
  - rewrite IH. split.
    + intros H c [E|[E|Hc]].
      * subst c. specialize (H _ (or_introl eq_refl)).
        destruct a, b; cbn in H; congruence.
      * subst c. specialize (H _ (or_introl eq_refl)).
        destruct a, b; cbn in H; congruence.
      * apply H. now right.
    + intros H c [E|Hc].
      * subst c. rewrite (H a), (H b); [reflexivity|right; now left|now left].
      * apply H. right. now right.
Qed.

(** X5: the actions recorded during a run are combined by their maximum
    in the order [kNone < kWakeup < kCancel], whatever the order of the
    calls: [GotActionDuringRun] returns [kCancel] exactly when a
    cancellation was recorded, [kWakeup] exactly when a wakeup and no
    cancellation was, and [kNone] exactly when nothing was; it resets the
    field, so an immediate second sample returns [kNone]. *)
Theorem X5_recorded_actions_combine (l : list ActionDuringRun) (w : world) :
  exists a : ActionDuringRun,
    (record_actions l ;; GotActionDuringRun) w = Ok a (set_action kNone w) /\
    (a = kCancel <-> In kCancel (action_during_run_ w :: l)) /\
    (a = kWakeup <-> ~ In kCancel (action_during_run_ w :: l) /\
                     In kWakeup (action_during_run_ w :: l)) /\
    (a = kNone <-> forall b, In b (action_during_run_ w :: l) -> b = kNone) /\
    GotActionDuringRun (set_action kNone w) = Ok kNone (set_action kNone w).
Proof.
  exists (fold_left (std_max ActionDuringRun_lt) l (action_during_run_ w)).
  pose proof (fold_max_cancel l (action_during_run_ w)) as Hc.
  pose proof (fold_max_none l (action_during_run_ w)) as Hn.
  split; [|split; [exact Hc|split; [|split; [exact Hn|]]]].
  - unfold bind. rewrite record_actions_result. destruct w. reflexivity.
  - destruct (fold_left _ l _) eqn:E.
    + split; [discriminate|]. intros [_ Hw].
      rewrite (proj1 Hn eq_refl _ Hw). reflexivity.
    + split; [intros _|reflexivity]. split.
      * intros H. apply Hc in H. discriminate H.
      * destruct (in_dec (fun a b : ActionDuringRun =>
                            ltac:(decide equality) : {a = b} + {a <> b})
                         kWakeup (action_during_run_ w :: l)) as [H|H]; auto.
        exfalso.
        assert (Hk : forall b, In b (action_during_run_ w :: l) -> b = kNone).
        { intros b Hb. destruct b; auto.
          - contradiction.
          - apply Hc in Hb. discriminate Hb. }
        apply Hn in Hk. discriminate Hk.
    + split; [discriminate|]. intros [H _]. exfalso. apply H, Hc. reflexivity.
  - destruct w. reflexivity.
Qed.

Lemma deliver_all_app (t : Tid) (c1 c2 : list Call) (w : world) :
  deliver_all t (c1 ++ c2) w = (deliver_all t c1 ;; deliver_all t c2) w.
Proof.
  revert w. induction c1 as [|c c1 IH]; intros w; cbn [deliver_all app].
  - reflexivity.
  - unfold bind in *. destruct (deliver t c w) as [[] w1|f w1|w1]; auto.
Qed.

Lemma deliver_all_sentinel (t : Tid) (cs : list Call) (w : world) :
  Forall (fun c : Call => fst c = activity_detail.unwakeable) cs ->
  deliver_all t cs w = Ok tt w.
Proof.
  induction 1 as [|[p m] cs Hc _ IH]; cbn [deliver_all]; [reflexivity|].
  cbn in Hc. subst p. unfold bind, deliver. cbn. exact IH.
Qed.

Lemma refs_round_trip (r : Z) :
  (1 <= r < 2 ^ 32)%Z ->
  (1 =? (r + 1) mod 2 ^ 32)%Z = false /\
  (((r + 1) mod 2 ^ 32 - 1) mod 2 ^ 32)%Z = r.
Proof.
  intros H. change (2 ^ 32)%Z with 4294967296%Z in *. split.
  - apply Z.eqb_neq. Z.to_euclidean_division_equations. lia.
  - Z.to_euclidean_division_equations. lia.
Qed.

Lemma owning_lifetime_wakeups (n : nat) (p : Wakeable) :
  Waker.lifetime (repeat Waker.UseWakeup (S n)) (Waker.mk p)
  = (p, M_Wakeup)
      :: Waker.lifetime (repeat Waker.UseWakeup n)
           (Waker.mk activity_detail.unwakeable).
Proof.
  unfold Waker.lifetime. cbn [repeat Waker.apply_uses Waker.apply_use].
  unfold Waker.Wakeup, Waker.Take, std_exchange. cbn [Waker.wakeable_].
  destruct (Waker.apply_uses _ _) as [w' cs]. reflexivity.
Qed.

Lemma woken_lifetime_sentinel (n : nat) :
  Forall (fun c : Call => fst c = activity_detail.unwakeable)
         (Waker.lifetime (repeat Waker.UseWakeup n)
            (Waker.mk activity_detail.unwakeable)).
Proof.
  induction n as [|n IH].
  - repeat constructor.
  - rewrite owning_lifetime_wakeups. constructor; [reflexivity|exact IH].
Qed.

(** X6: an owning Waker taken from the activity and destroyed without
    being woken leaves the activity exactly as it was ([Ref] then [Drop]
    cancel out, while the count fits its 32 bits); woken any number of
    times before it is destroyed, it is to the activity one [Ref] followed
    by one [Wakeup]. *)
Theorem X6_owning_waker_round_trip (t : Tid) (n : nat) (w : world) :
  (1 <= refs_ w < 2 ^ 32)%Z ->
  (wk <- MakeOwningWaker ;;
   deliver_all t (Waker.lifetime (repeat Waker.UseWakeup n) wk)) w
  = match n with
    | 0 => Ok tt w
    | S _ => (Ref ;; Wakeup t) w
    end.
Proof.
  intros Hr. destruct n as [|n].
  - destruct w. cbn [repeat Waker.lifetime Waker.apply_uses].
    eval_methods. rewrite Nat.eqb_refl. eval_methods.
    destruct (refs_round_trip Hr) as [-> ->]. reflexivity.
  - unfold MakeOwningWaker, Waker.ctor, ret, bind.
    destruct (Ref w) as [[] w1|f w1|w1]; auto.
    rewrite owning_lifetime_wakeups. cbn [deliver_all].
    unfold bind, deliver. rewrite Nat.eqb_refl.
    destruct (Wakeup t w1) as [[] w2|f w2|w2]; auto.
    apply deliver_all_sentinel, woken_lifetime_sentinel.
Qed.

(** X7: [ForceWakeup()] with a reference count that fits.  Called by the
    thread that is polling the activity it is [ForceImmediateRepoll()]:
    it records [kWakeup] and changes nothing else.  Called from
    elsewhere while a wakeup is already scheduled it changes nothing.
    Called from elsewhere with no wakeup scheduled it hands the scheduler
    one request together with one reference. *)
Theorem X7_ForceWakeup_cases (t : Tid) (w : world) :
  (1 <= refs_ w < 2 ^ 32)%Z ->
  (Activity.is_current this (g_current_activity_ w t) = true ->
   mu_ w = Some t ->
   ForceWakeup t w = ForceImmediateRepoll t w /\
   ForceWakeup t w
   = Ok tt (set_action (std_max ActionDuringRun_lt (action_during_run_ w)
                          kWakeup) w)) /\
  (Activity.is_current this (g_current_activity_ w t) = false ->
   wakeup_scheduled_ w = true ->
   ForceWakeup t w = Ok tt w) /\
  (Activity.is_current this (g_current_activity_ w t) = false ->
   wakeup_scheduled_ w = false ->
   ForceWakeup t w
   = Ok tt (set_scheduled (S (scheduled w))
              (set_wakeup_scheduled true
                 (set_refs ((refs_ w + 1) mod 2 ^ 32)%Z w)))).
Proof.
  intros Hr. destruct (refs_round_trip Hr) as [H1 H2].
  destruct w. cbn [refs_] in *.
  split; [|split].
  - intros Hc Hmu. cbn [mu_] in Hmu. subst. eval_methods.
    rewrite Nat.eqb_refl. eval_methods. rewrite Hc. eval_methods.
    rewrite Nat.eqb_refl. eval_methods. rewrite H1, H2. split; reflexivity.
  - intros Hc Hs. cbn [wakeup_scheduled_] in Hs. subst. eval_methods.
    rewrite Nat.eqb_refl. eval_methods. rewrite Hc. eval_methods.
    rewrite H1, H2. reflexivity.
  - intros Hc Hs. cbn [wakeup_scheduled_] in Hs. subst. eval_methods.
    rewrite Nat.eqb_refl. eval_methods. rewrite Hc. eval_methods.
    reflexivity.
Qed.
(** *** Further properties: what no execution does *)

Section Sound.

Variable tls0 : Tid -> Activity.ptr.
Hypothesis tls0_fresh : forall t, tls0 t <> Some this.

Ltac eval_sound :=
  cbv beta iota zeta delta
    [sound_idle sound_polling sound_after sound_stop sound_locked sound_ran]
    in *;
  eval_methods.

Ltac solve_sound :=
  solve_inv;
  try solve [repeat constructor; auto; left; reflexivity];
  try solve [intuition (auto; congruence)].

Lemma is_current_sound_polling (t : Tid) (n : nat) (w : world) (t' : Tid) :
  sound_polling tls0 t n w ->
  Activity.is_current this (g_current_activity_ w t') = Nat.eqb t' t.
Proof.
  intros (_ & Ht & Ho & _).
  unfold Activity.is_current.
  destruct (Nat.eqb_spec t' t) as [->|Hne].
  - rewrite Ht. simpl. apply Nat.eqb_refl.
  - rewrite (Ho t' Hne). pose proof (@tls0_fresh t') as Hf.
    destruct (tls0 t') as [a|]; simpl; [|reflexivity].
    apply Nat.eqb_neq. congruence.
Qed.

Lemma is_current_sound_idle (w : world) (t' : Tid) :
  sound_idle tls0 w ->
  Activity.is_current this (g_current_activity_ w t') = false.
Proof.
  intros (_ & Hg & _). rewrite Hg. pose proof (@tls0_fresh t') as Hf.
  unfold Activity.is_current.
  destruct (tls0 t') as [a|]; simpl; [|reflexivity].
  apply Nat.eqb_neq. congruence.
Qed.

Lemma do_op_sound_polling (t : Tid) (n : nat) (t' : Tid) (op : Op) :
  triple (sound_polling tls0 t n) (do_op t' op)
         (fun _ => sound_polling tls0 t n) sound_stop.
Proof.
  intros w Hw.
  pose proof (is_current_sound_polling t' Hw) as Hc.
  destruct w; destruct op; eval_sound; rewrite ?Hc.
  all: repeat case_step.
  all: solve_sound.
Qed.

Lemma do_op_sound_idle (t' : Tid) (op : Op) :
  triple (sound_idle tls0) (do_op t' op) (fun _ => sound_idle tls0) sound_stop.
Proof.
  intros w Hw.
  pose proof (is_current_sound_idle t' Hw) as Hc.
  destruct w; destruct op; eval_sound; rewrite ?Hc.
  all: repeat case_step.
  all: try solve [solve_sound].
  all: destruct Hw as (_ & Hg & _ & _ & Hl & _); specialize (Hl eq_refl);
    subst; cbn; repeat split; try discriminate; try congruence;
    try (intros t; destruct (Nat.eqb_spec t t'); subst; apply Hg);
    try (repeat constructor; left; reflexivity).
Qed.

Lemma do_ops_sound_polling (t : Tid) (n : nat) (ops : list (Tid * Op)) :
  triple (sound_polling tls0 t n) (do_ops ops)
         (fun _ => sound_polling tls0 t n) sound_stop.
Proof.
  induction ops as [|[t' op] ops IH].
  - apply triple_ret.
  - simpl. eapply triple_bind; [apply do_op_sound_polling|]. intros [].
    exact IH.
Qed.

Lemma call_promise_sound (t : Tid) (n : nat) :
  triple (sound_polling tls0 t n) call_promise
         (fun r w => sound_polling tls0 t (S n) w /\
                     forall x, r = Ready x -> genuine (IntoStatus x))
         sound_stop.
Proof.
  intros w Hw. unfold call_promise, bind at 1, gets.
  destruct (promise_holder_ w) as [ps|] eqn:Hp.
  - destruct (poll ps) as [[ps' ops] r] eqn:Hpoll.
    assert (Hw' : sound_polling tls0 t (S n)
                    (set_promise (Some ps') (set_polls (S (polls w)) w))).
    { destruct w. eval_sound. intuition (try discriminate; try lia). }
    pose proof (do_ops_sound_polling ops Hw') as Hops.
    unfold bind, modify, ret.
    destruct (do_ops ops _) as [[] w1|f w1|w1]; auto.
    split; [exact Hops|].
    intros x ->. right. exists ps, x. rewrite Hpoll. auto.
  - exfalso. now apply Hw.
Qed.

Lemma sound_after_weaken (t : Tid) (n : nat) (r : option ResultType)
    (w : world) :
  sound_after tls0 t (S n) r w -> sound_after tls0 t n r w.
Proof.
  unfold sound_after. intros (H1 & H2 & H3 & H4 & H5 & H6).
  repeat split; auto. lia.
Qed.

Lemma sound_loop_ready (t : Tid) (n : nat) (s : ResultType) :
  genuine s ->
  triple (sound_polling tls0 t (S n)) (bind MarkDone (fun _ => ret (Some s)))
         (sound_after tls0 t n) sound_stop.
Proof.
  intros Hs w Hw. destruct w. eval_sound.
  destruct done_0; eval_sound; intuition (try discriminate; auto).
Qed.

Lemma genuine_cancelled : genuine CancelledError.
Proof. now left. Qed.

Lemma sound_loop_pending (t : Tid) (n : nat) (k : M (option ResultType)) :
  triple (sound_polling tls0 t (S n)) k (sound_after tls0 t n) sound_stop ->
  triple (sound_polling tls0 t (S n))
         (bind GotActionDuringRun (fun a =>
            match a with
            | kNone => ret None
            | kWakeup => k
            | kCancel => bind MarkDone (fun _ => ret (Some CancelledError))
            end))
         (sound_after tls0 t n) sound_stop.
Proof.
  intros Hk w Hw.
  unfold GotActionDuringRun, bind at 1, gets, std_exchange, bind at 1, modify.
  unfold bind at 1, ret at 1.
  destruct (action_during_run_ w) eqn:Ha.
  - destruct w. eval_sound. intuition (try discriminate; auto).
  - apply Hk. destruct w. eval_sound. exact Hw.
  - apply (sound_loop_ready (t := t) (n := n) genuine_cancelled).
    destruct w. eval_sound. exact Hw.
Qed.

Lemma StepLoop_while_sound (fuel : nat) :
  forall (t : Tid) (n : nat),
    triple (sound_polling tls0 t n) (StepLoop_while fuel)
           (sound_after tls0 t n) sound_stop.
Proof.
  induction fuel as [|fuel IH]; intros t n.
  - intros w Hw. simpl. unfold out_of_fuel.
    assert (Hl : on_done_calls w = []) by apply Hw.
    unfold sound_stop. rewrite Hl.
    repeat split; try discriminate. constructor.
  - cbn [StepLoop_while].
    eapply triple_bind with (Q := fun d w => d = false /\ sound_polling tls0 t n w).
    { intros w Hw. unfold gets. split; [apply Hw|exact Hw]. }
    intros d. eapply triple_bind with (Q := fun _ => sound_polling tls0 t n).
    { intros w [-> Hw]. exact Hw. }
    intros _. eapply triple_bind; [apply call_promise_sound|].
    intros [|x].
    + intros w [Hw _]. revert w Hw. apply sound_loop_pending.
      intros w Hw. specialize (IH t (S n) w Hw).
      destruct (StepLoop_while fuel w); auto.
      now apply sound_after_weaken.
    + intros w [Hw Hx]. revert w Hw. apply sound_loop_ready. now apply Hx.
Qed.

Lemma StepLoop_sound (fuel : nat) (t : Tid) (n : nat) :
  triple (sound_polling tls0 t n) (StepLoop fuel t)
         (sound_after tls0 t n) sound_stop.
Proof.
  intros w Hw. unfold StepLoop, bind at 1, is_current, gets.
  rewrite (is_current_sound_polling t Hw), Nat.eqb_refl.
  unfold GPR_ASSERT, bind, ret. now apply StepLoop_while_sound.
Qed.

Ltac through_loop fuel t n :=
  match goal with
  | |- context [StepLoop fuel t ?W] =>
      let Hw := fresh "Hw" in
      let H := fresh "H" in
      assert (Hw : sound_polling tls0 t n W);
      [ | pose proof (@StepLoop_sound fuel t n W Hw) as H;
          let r := fresh "r" in
          destruct (StepLoop fuel t W) as [r [] | ? ? | ?];
          [ destruct r | | ] ]
  end.

Ltac restore_current t Hg :=
  let t' := fresh "t'" in
  let Hne := fresh "Hne" in
  intros t'; destruct (Nat.eqb_spec t' t) as [->|Hne];
  [ try apply Hg; auto | auto ].

Lemma RunStep_sound (fuel : nat) (t : Tid) (n : nat) :
  triple (fun w => sound_locked tls0 t n w /\ promise_holder_ w <> None)
         (RunStep fuel t) (sound_ran tls0 t n) sound_stop.
Proof.
  intros w [Hl Hp]. destruct w. unfold RunStep. eval_sound.
  destruct Hl as (Hmu & Hg & Hd & Hlog & Hn). subst.
  through_loop fuel t n.
  { eval_sound. rewrite Nat.eqb_refl. repeat split; auto.
    intros t' Hne. apply Nat.eqb_neq in Hne. rewrite Hne. apply Hg. }
  all: eval_sound; auto.
  all: destruct H as (Hmu2 & Ht2 & Ho2 & Hlog2 & Hn2 & Hr).
  all: repeat split; auto; try solve [intuition auto].
  all: intros t'; destruct (Nat.eqb_spec t' t) as [->|Hne]; auto.
Qed.

Lemma Start_sound (fuel : nat) (t : Tid) (n : nat) (ps0 : PS) :
  triple (sound_locked tls0 t n) (Start fuel t ps0)
         (sound_ran tls0 t n) sound_stop.
Proof.
  intros w Hl. destruct w. unfold Start. eval_sound.
  destruct Hl as (Hmu & Hg & Hd & Hlog & Hn). subst.
  through_loop fuel t n.
  { eval_sound. rewrite Nat.eqb_refl. repeat split; auto; try discriminate.
    intros t' Hne. apply Nat.eqb_neq in Hne. rewrite Hne. apply Hg. }
  all: eval_sound; auto.
  all: destruct H as (Hmu2 & Ht2 & Ho2 & Hlog2 & Hn2 & Hr).
  all: repeat split; auto; try solve [intuition auto].
  all: intros t'; destruct (Nat.eqb_spec t' t) as [->|Hne]; auto.
Qed.

Lemma do_op_polls (t' : Tid) (op : Op) (w : world) :
  match do_op t' op w with
  | Ok _ w' => polls w' = polls w
  | _ => True
  end.
Proof.
  destruct w; destruct op; eval_methods.
  all: repeat case_step; auto.
Qed.

Lemma Step_sound (fuel : nat) (t : Tid) (n : nat) (d : bool) :
  triple (fun w => sound_idle tls0 w /\ n <= polls w /\ done_ w = d)
         (Step fuel t)
         (fun _ w => sound_idle tls0 w /\ n <= polls w /\
                     (d = false -> S n <= polls w))
         sound_stop.
Proof.
  intros w (Hi & Hn & Hd). destruct w. unfold Step. eval_sound.
  destruct Hi as (Hmu & Hg & Hp1 & Hp2 & Hl & Hgen). subst d mu_0.
  destruct done_0; eval_sound.
  - repeat split; auto. discriminate.
  - specialize (Hp2 eq_refl). specialize (Hl eq_refl). subst.
    match goal with
    | |- context [RunStep fuel t ?W] =>
        assert (Hw : sound_locked tls0 t n W /\ promise_holder_ W <> None)
          by (eval_sound; repeat split; auto);
        pose proof (@RunStep_sound fuel t n W Hw) as H;
        destruct (RunStep fuel t W) as [r [] | ? ? | ?]; [destruct r | | ]
    end.
    all: eval_sound; auto.
    all: destruct H as (Hmu2 & Hg2 & Hlog2 & Hn2 & Hr); clear Hw.
    all: repeat match goal with H : _ /\ _ |- _ => destruct H end; subst.
    all: cbn; repeat split; auto; try discriminate; try congruence; try lia.
    all: repeat constructor; auto.
Qed.

Lemma MakeActivity_sound (fuel : nat) (t : Tid) (ps0 : PS) :
  match MakeActivity fuel t ps0 (allocated tls0) with
  | Ok _ w => sound_idle tls0 w /\ 1 <= polls w
  | Fail f w => sound_stop (Some f) w
  | OutOfFuel w => sound_stop None w
  end.
Proof.
  unfold MakeActivity, ctor, allocated. eval_sound.
  match goal with
  | |- context [Start fuel t ps0 ?W] =>
      assert (Hw : sound_locked tls0 t 0 W)
        by (eval_sound; repeat split; auto);
      pose proof (@Start_sound fuel t 0 ps0 W Hw) as H;
      destruct (Start fuel t ps0 W) as [r [] | ? ? | ?]; [destruct r | | ]
  end.
  all: eval_sound; auto.
  all: destruct H as (Hmu2 & Hg2 & Hlog2 & Hn2 & Hr); clear Hw.
  all: repeat match goal with H : _ /\ _ |- _ => destruct H end; subst.
  all: cbn; repeat split; auto; try discriminate; try congruence.
  all: repeat constructor; auto.
Qed.

Lemma do_event_sound (fuel : nat) (e : event) (n : nat) (d : bool) :
  triple (fun w => sound_idle tls0 w /\ n <= polls w /\ done_ w = d)
         (do_event fuel e)
         (fun _ w => sound_idle tls0 w /\ n <= polls w /\
                     (d = false ->
                      match e with
                      | EvOp _ _ => True
                      | _ => S n <= polls w
                      end))
         sound_stop.
Proof.
  destruct e as [t op|t|t]; cbn [do_event].
  - intros w (Hi & Hn & _). pose proof (do_op_sound_idle t op Hi) as H.
    pose proof (do_op_polls t op w) as Hp.
    destruct (do_op t op w); auto. rewrite Hp. auto.
  - intros w (Hi & Hn & Hd). destruct w. unfold RunScheduledWakeup.
    eval_sound.
    assert (Hgen : Forall genuine on_done_calls0) by apply Hi.
    repeat case_step; try solve [repeat split; auto; discriminate].
    all: match goal with
         | |- context [Step ?f ?u ?W] =>
             assert (Hw : sound_idle tls0 W /\ n <= polls W /\ done_ W = d)
               by (eval_sound; exact (conj Hi (conj Hn Hd)));
             pose proof (@Step_sound f u n d W Hw) as H;
             destruct (Step f u W) as [[] [] | ? ? | ?]
         end.
    all: eval_sound; auto.
    all: repeat case_step; try exact H.
    all: try solve [repeat split; try discriminate; apply H].
  - intros w (Hi & Hn & Hd). destruct w. eval_sound.
    assert (Hgen : Forall genuine on_done_calls0) by apply Hi.
    repeat case_step; try solve [repeat split; auto; discriminate].
    all: match goal with
         | |- context [Step ?f ?u ?W] =>
             assert (Hw : sound_idle tls0 W /\ n <= polls W /\ done_ W = d)
               by (eval_sound; exact (conj Hi (conj Hn Hd)));
             pose proof (@Step_sound f u n d W Hw) as H;
             destruct (Step f u W) as [[] [] | ? ? | ?]
         end.
    all: eval_sound; auto.
Qed.

Lemma run_sound (fuel : nat) (evs : list event) (n : nat) :
  triple (fun w => sound_idle tls0 w /\ n <= polls w) (run fuel evs)
         (fun _ w => sound_idle tls0 w /\ n <= polls w) sound_stop.
Proof.
  induction evs as [|e evs IH]; cbn [run].
  - apply triple_ret.
  - intros w (Hi & Hn). unfold bind.
    pose proof (@do_event_sound fuel e n (done_ w) w
                  (conj Hi (conj Hn eq_refl))) as H.
    destruct (do_event fuel e w) as [[] w1|f w1|w1]; auto.
    apply IH. split; apply H.
Qed.

Lemma execution_sound (fuel : nat) (t : Tid) (ps0 : PS) (evs : list event) :
  match execution fuel tls0 t ps0 evs with
  | Ok _ w => sound_idle tls0 w /\ 1 <= polls w
  | Fail f w => sound_stop (Some f) w
  | OutOfFuel w => sound_stop None w
  end.
Proof.
  unfold execution, bind.
  pose proof (MakeActivity_sound fuel t ps0) as Hm.
  destruct (MakeActivity fuel t ps0 (allocated tls0)) as [[] w|f w|w]; auto.
  now apply run_sound.
Qed.

(** X8: whatever its clients do, valid or not, no execution stops at one
    of the activity's own consistency checks: [GPR_ASSERT(is_current())]
    of [StepLoop], [GPR_ASSERT(!done_)] of [StepLoop] and [MarkDone], and
    the promise is never polled outside its lifetime (before [Start] has
    made it or after [MarkDone] has destroyed it). *)
Theorem X8_internal_checks_never_fire (fuel : nat) (t : Tid) (ps0 : PS)
    (evs : list event) :
  match execution fuel tls0 t ps0 evs with
  | Fail f _ =>
      f <> AssertIsCurrent /\ f <> AssertNotDone /\ f <> NoPromise
  | _ => True
  end.
Proof.
  pose proof (execution_sound fuel t ps0 evs) as H.
  destruct (execution fuel tls0 t ps0 evs) as [[] w|f w|w]; auto.
  destruct H as (H1 & H2 & H3 & _).
  repeat split; intros ->; auto.
Qed.

(** X9: when an execution returns, the activity's mutex is free and
    every thread's [g_current_activity_] holds what it held when the
    activity was allocated: each [ScopedActivity] of [Start], [RunStep]
    and [Cancel] has been undone and each [Lock] released. *)
Theorem X9_returns_unlocked_and_restored (fuel : nat) (t : Tid) (ps0 : PS)
    (evs : list event) (w : world) :
  execution fuel tls0 t ps0 evs = Ok tt w ->
  mu_ w = None /\ forall t', g_current_activity_ w t' = tls0 t'.
Proof.
  intros E. pose proof (execution_sound fuel t ps0 evs) as H.
  rewrite E in H. destruct H as ((Hmu & Hg & _) & _). auto.
Qed.

(** X10: when an execution returns, the promise has been destroyed
    exactly when the activity is done: [MarkDone] is the only place
    that sets [done_] and the only one that destroys the promise. *)
Theorem X10_done_iff_promise_destroyed (fuel : nat) (t : Tid) (ps0 : PS)
    (evs : list event) (w : world) :
  execution fuel tls0 t ps0 evs = Ok tt w ->
  (done_ w = true <-> promise_holder_ w = None).
Proof.
  intros E. pose proof (execution_sound fuel t ps0 evs) as H.
  rewrite E in H. destruct H as ((_ & _ & H1 & H2 & _) & _).
  split; [exact H1|]. intros Hp.
  destruct (done_ w); [reflexivity|]. now destruct (H2 eq_refl).
Qed.


(** X14: the constructor polls the promise at least once before
    [MakeActivity] returns, no call ever lowers the number of polls, a
    call of the Waker or Activity interface made between polls does not
    poll the promise, and a [RunScheduledWakeup] or a [Step] that returns
    on an activity that was not done has polled the promise at least once
    more. *)
Theorem X14_step_polls_when_not_done (fuel : nat) (t : Tid) (ps0 : PS)
    (evs : list event) (w : world) :
  execution fuel tls0 t ps0 evs = Ok tt w ->
  1 <= polls w /\
  forall (e : event) (w' : world),
    do_event fuel e w = Ok tt w' ->
    polls w <= polls w' /\
    match e with
    | EvOp _ _ => polls w' = polls w
    | _ => done_ w = false -> polls w < polls w'
    end.
Proof.
  intros E. pose proof (execution_sound fuel t ps0 evs) as H.
  rewrite E in H. destruct H as (Hi & Hn). split; [exact Hn|].
  intros e w' E'.
  pose proof (@do_event_sound fuel e (polls w) (done_ w) w
                (conj Hi (conj (le_n _) eq_refl))) as H.
  rewrite E' in H. destruct H as (_ & Hle & Hlt). split; [exact Hle|].
  destruct e as [t' op| |]; auto.
  pose proof (do_op_polls t' op w) as Hp. cbn [do_event] in E'.
  now rewrite E' in Hp.
Qed.

End Sound.
(** *** Further properties: reclamation *)

Ltac eval_reclaimed :=
  cbv beta iota zeta delta [reclaimed iff] in *; eval_all.

Lemma do_op_reclaimed (t' : Tid) (op : Op) :
  triple (fun w => idle_inv w /\ reclaimed w) (do_op t' op)
         (fun _ => reclaimed) (fun _ _ => True).
Proof.
  intros w [Hw Hr].
  pose proof (is_current_idle t' Hw) as Hc.
  destruct w; destruct op; eval_reclaimed; rewrite ?Hc.
  all: repeat case_step; auto.
  all: solve_inv.
Qed.

Lemma wakeup_completes_reclaimed :
  triple (fun w => resting 1 w /\ deleted w = false)
         WakeupComplete (fun _ => reclaimed) (fun _ _ => True).
Proof.
  intros w [Hw Hd]. destruct w. eval_reclaimed.
  repeat case_step; auto; solve_inv.
Qed.

Lemma do_event_reclaimed (fuel : nat) (e : event) :
  triple (fun w => idle_inv w /\ reclaimed w) (do_event fuel e)
         (fun _ => reclaimed) (fun _ _ => True).
Proof.
  destruct e as [t op|t|t]; cbn [do_event].
  - apply do_op_reclaimed.
  - intros w [Hw _]. pose proof (scheduled_wakeup_begins Hw) as Hpre.
    unfold RunScheduledWakeup. unfold bind in *.
    destruct (alive w) as [[] w1|f w1|w1]; auto.
    destruct (scheduler_take w1) as [[] w2|f w2|w2]; auto.
    destruct (exchange_wakeup_scheduled false w2) as [old w3|f w3|w3]; auto.
    destruct (GPR_ASSERT old AssertWakeupScheduled w3) as [[] w4|f w4|w4]; auto.
    destruct Hpre as [Hr Hd].
    assert (Hstep : resting 1 w4 /\ deleted w4 = false /\
                    misused w4 = misused w4 /\
                    (misused w4 = false -> (1 <= 1)%Z))
      by (split; [exact Hr|split; [exact Hd|split; [reflexivity|intros _; lia]]]).
    apply (Step_resting t fuel) in Hstep.
    destruct (Step fuel t w4) as [[] w5|f w5|w5]; auto.
    apply wakeup_completes_reclaimed. tauto.
  - intros w [Hw _]. unfold bind at 1.
    assert (Ha : match alive w with
                 | Ok _ w' => w' = w /\ deleted w = false
                 | Fail f w' => True
                 | OutOfFuel _ => False
                 end).
    { destruct w. eval_all. repeat case_step; auto. }
    destruct (alive w) as [[] w1|f w1|w1]; auto.
    destruct Ha as [-> Hd].
    unfold bind at 1, flag_misuse, modify.
    assert (Hstep : resting 0 (set_misused true w) /\
                    deleted (set_misused true w) = false /\
                    misused (set_misused true w) = true /\
                    (true = false -> (1 <= 0)%Z)).
    { destruct w. eval_all. solve_inv. }
    apply (Step_resting t fuel) in Hstep.
    destruct (Step fuel t (set_misused true w)) as [[] w5|f w5|w5]; auto.
    destruct Hstep as (_ & _ & Hm). intros Hc.
    rewrite (Hm eq_refl) in Hc. discriminate Hc.
Qed.

Lemma run_reclaimed (fuel : nat) (evs : list event) :
  triple (fun w => idle_inv w /\ reclaimed w) (run fuel evs)
         (fun _ => reclaimed) (fun _ _ => True).
Proof.
  induction evs as [|e evs IH]; cbn [run].
  - intros w [_ H]. exact H.
  - intros w Hw. unfold bind.
    pose proof (do_event_idle fuel e (proj1 Hw)) as Hi.
    pose proof (do_event_reclaimed fuel e Hw) as Hr.
    destruct (do_event fuel e w) as [[] w1|f w1|w1]; auto.
    apply IH. split; assumption.
Qed.

Lemma MakeActivity_reclaimed (fuel : nat) (tls : Tid -> Activity.ptr)
    (t : Tid) (ps0 : PS) :
  (forall t', tls t' <> Some this) ->
  match MakeActivity fuel t ps0 (allocated tls) with
  | Ok _ w => reclaimed w
  | _ => True
  end.
Proof.
  intros Htls. unfold MakeActivity, ctor, bind at 1, bind at 1, Lock, bind at 1.
  unfold gets, modify. cbn [allocated mu_].
  assert (Hl : locked t 0 false (set_mu (Some t) (allocated tls))).
  { unfold allocated. eval_all. solve_inv. }
  pose proof (Start_locked fuel ps0 Hl) as Hrun.
  unfold bind at 1.
  destruct (Start fuel t ps0 _) as [status w1|f w1|w1]; auto.
  destruct w1, status; eval_reclaimed; solve_inv.
Qed.

(** X12: when an execution returns and the clients have kept their side
    (each owning Waker fired or dropped once, [Orphan] called once, fewer
    than [2^32] references), the reference count [refs_] is exactly the
    number of references outstanding: the ActivityPtr unless orphaned,
    the owning Wakers alive, and the request the scheduler holds.  No
    reference is lost or counted twice by [Ref], [Unref], [Wakeup],
    [Drop], [Orphan] or [RunScheduledWakeup]. *)
Theorem X12_refs_counts_holders (fuel : nat) (tls : Tid -> Activity.ptr)
    (t : Tid) (ps0 : PS) (evs : list event) (w : world) :
  (forall t', tls t' <> Some this) ->
  execution fuel tls t ps0 evs = Ok tt w ->
  misused w = false ->
  refs_ w = holders w /\ (0 <= refs_ w < 2 ^ 32)%Z.
Proof.
  intros Htls E Hm.
  pose proof (@execution_invariant fuel tls t ps0 evs Htls) as H.
  rewrite E in H. destruct H as (_ & _ & _ & _ & _ & H).
  destruct (H Hm) as (_ & _ & Hc & Hlt). rewrite Z.add_0_r in Hc.
  split; [exact Hc|]. split; [|exact Hlt].
  rewrite Hc. unfold holders. destruct (primary w); lia.
Qed.

(** X13: when an execution returns and the clients have kept their side,
    the object has been deleted exactly when no reference is outstanding:
    [Unref] deletes it with the last reference, never earlier, and a
    returned execution never leaves an unreferenced object alive. *)
Theorem X13_deleted_iff_unreferenced (fuel : nat) (tls : Tid -> Activity.ptr)
    (t : Tid) (ps0 : PS) (evs : list event) (w : world) :
  (forall t', tls t' <> Some this) ->
  execution fuel tls t ps0 evs = Ok tt w ->
  misused w = false ->
  (deleted w = true <-> holders w = 0%Z).
Proof.
  intros Htls E Hm. unfold execution, bind in E.
  pose proof (@MakeActivity_idle fuel tls t ps0 Htls) as Hi.
  pose proof (@MakeActivity_reclaimed fuel tls t ps0 Htls) as Hr.
  destruct (MakeActivity fuel t ps0 (allocated tls)) as [[] w1|f w1|w1];
    try discriminate E.
  pose proof (run_reclaimed fuel evs (conj Hi Hr)) as H.
  rewrite E in H. exact (H Hm).
Qed.

End WithPromise.

Arguments Ok {PS ResultType A} a w.
Arguments Fail {PS ResultType A} f w.
Arguments OutOfFuel {PS ResultType A} w.

End PromiseActivity.

(** * Properties of the handles and of the current activity *)

(** ** Wakeable, Waker, AtomicWaker *)

Lemma Wakeable_eqb_eq (a b : Wakeable) : Wakeable_eqb a b = true <-> a = b.
Proof.
  destruct a as [|x], b as [|y]; simpl; split; intro H;
    try reflexivity; try discriminate.
  - apply Nat.eqb_eq in H. now subst.
  - injection H as ->. apply Nat.eqb_refl.
Qed.

Lemma Wakeable_eqb_refl (a : Wakeable) : Wakeable_eqb a a = true.
Proof. now apply Wakeable_eqb_eq. Qed.

(** C5, as stated, fails for move assignment: after [w1 = std::move(w2)]
    with [w1] holding object 1 and [w2] holding object 2, [w1] holds object
    2 and the moved-from [w2] holds object 1, not the sentinel. *)
Lemma C5_move_assign_source_not_sentinel :
  let '(this', other') :=
    Waker.move_assign (Waker.ctor (Target 1)) (Waker.ctor (Target 2)) in
  Waker.wakeable_ this' = Target 2 /\
  Waker.wakeable_ other' = Target 1 /\
  Waker.wakeable_ other' <> activity_detail.unwakeable.
Proof. simpl. repeat split. discriminate. Qed.

(** C5 (amended): move construction hands the held pointer to the new
    Waker and leaves the source holding the unwakeable sentinel; move
    assignment swaps the two held pointers, so the destination gets the
    source's pointer and the source gets the pointer the destination held,
    which is the sentinel exactly when the destination held the sentinel. *)
Theorem C5_move_transfers_ownership :
  (forall other : Waker.t,
      Waker.wakeable_ (fst (Waker.move_ctor other)) = Waker.wakeable_ other /\
      Waker.wakeable_ (snd (Waker.move_ctor other)) = activity_detail.unwakeable) /\
  (forall this other : Waker.t,
      Waker.wakeable_ (fst (Waker.move_assign this other)) = Waker.wakeable_ other /\
      Waker.wakeable_ (snd (Waker.move_assign this other)) = Waker.wakeable_ this /\
      (Waker.wakeable_ (snd (Waker.move_assign this other)) = activity_detail.unwakeable
       <-> Waker.wakeable_ this = activity_detail.unwakeable)).
Proof.
  split.
  - intros [p]. split; reflexivity.
  - intros [p] [q]. simpl. repeat split; auto.
Qed.

Lemma woken_app (c1 c2 : list Call) : woken (c1 ++ c2) = woken c1 ++ woken c2.
Proof. unfold woken. now rewrite filter_app, map_app. Qed.

Lemma AtomicWaker_apply_op_spec (o : AtomicWaker.op) (s : AtomicWaker.t) :
  AtomicWaker.wakeable_ (fst (AtomicWaker.apply_op o s)) = AtomicWaker.stored o /\
  woken (snd (AtomicWaker.apply_op o s)) = [AtomicWaker.wakeable_ s].
Proof. destruct o as [[p]|], s as [q]; split; reflexivity. Qed.

Lemma AtomicWaker_conservation (os : list AtomicWaker.op) :
  forall s : AtomicWaker.t,
    woken (snd (AtomicWaker.apply_ops os s))
      ++ [AtomicWaker.wakeable_ (fst (AtomicWaker.apply_ops os s))]
    = AtomicWaker.wakeable_ s :: map AtomicWaker.stored os.
Proof.
  induction os as [|o os IH]; intro s; simpl.
  - reflexivity.
  - destruct (AtomicWaker_apply_op_spec o s) as [Hs Hw].
    destruct (AtomicWaker.apply_op o s) as [s1 c1]; simpl in Hs, Hw.
    specialize (IH s1).
    destruct (AtomicWaker.apply_ops os s1) as [s2 c2]; simpl in *.
    rewrite woken_app, Hw, <- Hs. simpl. now rewrite IH.
Qed.

(** C6: [AtomicWaker::Set(w)] stores the pointer taken from [w] and calls
    [Wakeup] on the pointer stored before (the only other call is the
    no-op [Drop] on the sentinel left in the parameter); over any sequence
    of [Set] and [Wakeup] on a slot, the pointers ever stored, in order,
    are exactly the receivers of the [Wakeup] calls followed by the final
    occupant: every pointer that left the slot was woken, none was lost. *)
Theorem C6_set_wakes_replaced :
  (forall (s : AtomicWaker.t) (w : Waker.t),
      AtomicWaker.wakeable_ (fst (AtomicWaker.Set_ s w)) = Waker.wakeable_ w /\
      snd (AtomicWaker.Set_ s w)
      = [(AtomicWaker.wakeable_ s, M_Wakeup); (activity_detail.unwakeable, M_Drop)] /\
      received (AtomicWaker.wakeable_ s) M_Wakeup (snd (AtomicWaker.Set_ s w)) = 1) /\
  (forall (os : list AtomicWaker.op) (s : AtomicWaker.t),
      woken (snd (AtomicWaker.apply_ops os s))
        ++ [AtomicWaker.wakeable_ (fst (AtomicWaker.apply_ops os s))]
      = AtomicWaker.wakeable_ s :: map AtomicWaker.stored os).
Proof.
  split.
  - intros [q] [p]. simpl. repeat split.
    unfold received. simpl. rewrite Wakeable_eqb_refl. simpl.
    now rewrite andb_false_r.
  - intros os s. apply AtomicWaker_conservation.
Qed.

Lemma Waker_apply_use_spec (u : Waker.use) (w : Waker.t) :
  Waker.wakeable_ (fst (Waker.apply_use u w)) = activity_detail.unwakeable /\
  (snd (Waker.apply_use u w) = [] \/
   snd (Waker.apply_use u w) = [(Waker.wakeable_ w, M_Wakeup)]).
Proof. destruct u, w as [p]; simpl; auto. Qed.

Lemma signals_app (c1 c2 : list Call) : signals (c1 ++ c2) = signals c1 ++ signals c2.
Proof. unfold signals. apply flat_map_app. Qed.

Lemma Waker_lifetime_cons (u : Waker.use) (us : list Waker.use) (w : Waker.t) :
  Waker.lifetime (u :: us) w
  = snd (Waker.apply_use u w) ++ Waker.lifetime us (fst (Waker.apply_use u w)).
Proof.
  unfold Waker.lifetime. simpl.
  destruct (Waker.apply_use u w) as [w1 c1]. simpl.
  destruct (Waker.apply_uses us w1) as [w2 c2]. now rewrite app_assoc.
Qed.

(** Once a Waker holds the sentinel, nothing it does reaches an object. *)
Lemma Waker_sentinel_lifetime (us : list Waker.use) :
  forall w : Waker.t,
    Waker.wakeable_ w = activity_detail.unwakeable ->
    Forall (fun c : Call => fst c = activity_detail.unwakeable) (Waker.lifetime us w).
Proof.
  induction us as [|u us IH]; intros w Hp.
  - destruct w as [p]. simpl in Hp. subst p. repeat constructor.
  - rewrite Waker_lifetime_cons.
    destruct (Waker_apply_use_spec u w) as [Hs Hc].
    apply Forall_app. split; [|apply IH, Hs].
    rewrite Hp in Hc. destruct Hc as [-> | ->]; repeat constructor.
Qed.

Lemma signals_sentinel (cs : list Call) :
  Forall (fun c : Call => fst c = activity_detail.unwakeable) cs -> signals cs = [].
Proof.
  induction 1 as [|[p m] cs Hc _ IH]; simpl in *; [reflexivity|].
  subst p. exact IH.
Qed.

Lemma Waker_lifetime_signals (us : list Waker.use) (w : Waker.t) :
  length (signals (Waker.lifetime us w)) <= 1.
Proof.
  destruct us as [|u us].
  - destruct w as [[|a]]; simpl; lia.
  - rewrite Waker_lifetime_cons, signals_app.
    destruct (Waker_apply_use_spec u w) as [Hs Hc].
    rewrite (signals_sentinel (Waker_sentinel_lifetime us _ Hs)), app_nil_r.
    destruct Hc as [-> | ->]; [simpl; lia|].
    destruct w as [[|a]]; simpl; lia.
Qed.

Lemma received_le_signals (a : nat) (m : Method) (cs : list Call) :
  received (Target a) M_Wakeup cs + received (Target a) M_Drop cs
  <= length (signals cs).
Proof.
  clear m. unfold received.
  induction cs as [|[[|b] [|]] cs IH]; simpl in *; try lia;
    destruct (Nat.eqb b a); simpl; lia.
Qed.

(** C9: [Waker::Wakeup()] calls [Wakeup] on the held pointer and leaves the
    Waker holding the sentinel; every call the Waker makes afterwards (more
    [Wakeup()]s, being moved from, its destructor) has the sentinel as
    receiver; and over the whole life of a Waker any object receives at
    most one call through it, so at most one [Wakeup] and at most one
    [Drop]. *)
Theorem C9_waker_consumed_by_wakeup :
  forall w : Waker.t,
    Waker.wakeable_ (fst (Waker.Wakeup w)) = activity_detail.unwakeable /\
    snd (Waker.Wakeup w) = [(Waker.wakeable_ w, M_Wakeup)] /\
    (forall us : list Waker.use,
        Forall (fun c : Call => fst c = activity_detail.unwakeable)
               (Waker.lifetime us (fst (Waker.Wakeup w)))) /\
    (forall (us : list Waker.use) (a : nat),
        received (Target a) M_Wakeup (Waker.lifetime us w) <= 1 /\
        received (Target a) M_Drop (Waker.lifetime us w) <= 1 /\
        received (Target a) M_Wakeup (Waker.lifetime us w)
          + received (Target a) M_Drop (Waker.lifetime us w) <= 1).
Proof.
  intro w. split; [|split; [|split]].
  - now destruct w.
  - now destruct w.
  - intro us. apply Waker_sentinel_lifetime. now destruct w.
  - intros us a.
    pose proof (received_le_signals a M_Wakeup (Waker.lifetime us w)).
    pose proof (Waker_lifetime_signals us w). lia.
Qed.

(** C10, as stated, fails for a Waker moved from by assignment: after
    [w1 = std::move(w2)] with [w1] holding object 1, the moved-from [w2]
    holds object 1 and does not compare equal to a default-constructed
    Waker. *)
Lemma C10_assigned_from_differs_from_default :
  let moved_from :=
    snd (Waker.move_assign (Waker.ctor (Target 1)) (Waker.ctor (Target 2))) in
  Waker.eqb moved_from Waker.default = false /\
  Waker.eqb (fst (Waker.Wakeup (Waker.ctor (Target 3)))) moved_from = false.
Proof. split; reflexivity. Qed.

Lemma consumed_holds_sentinel (w : Waker.t) :
  Waker.consumed w -> Waker.wakeable_ w = activity_detail.unwakeable.
Proof.
  induction 1 as [|[p]|[p]|[p] [q] _ IH]; simpl in *; auto.
Qed.

(** C10 (amended): equality holds exactly when the held pointers are equal
    and the hash is a function of the held pointer; two Wakers that were
    each default-constructed, woken, moved from by move construction, or
    moved from by an assignment into such a Waker, hold the same sentinel
    and compare equal with equal hashes, whatever they targeted before. *)
Theorem C10_consumed_wakers_equal :
  forall a b : Waker.t,
    Waker.consumed a -> Waker.consumed b ->
    Waker.eqb a b = true /\
    Waker.wakeable_ a = activity_detail.unwakeable /\
    Waker.wakeable_ b = activity_detail.unwakeable /\
    (forall (H : Type) (combine : H -> Wakeable -> H) (h : H),
        Waker.AbslHashValue combine h a = Waker.AbslHashValue combine h b) /\
    (forall x y : Waker.t,
        Waker.eqb x y = true <-> Waker.wakeable_ x = Waker.wakeable_ y) /\
    (forall (x y : Waker.t) (H : Type) (combine : H -> Wakeable -> H) (h : H),
        Waker.wakeable_ x = Waker.wakeable_ y ->
        Waker.AbslHashValue combine h x = Waker.AbslHashValue combine h y).
Proof.
  intros a b Ha Hb.
  apply consumed_holds_sentinel in Ha, Hb.
  unfold Waker.eqb, Waker.AbslHashValue. rewrite Ha, Hb.
  repeat split; auto.
  - apply Wakeable_eqb_eq.
  - apply Wakeable_eqb_eq.
  - intros x y H combine h ->. reflexivity.
Qed.

(** C10 (amended) at a woken Waker and a Waker moved from by move
    construction, with different earlier targets. *)
Lemma C10_consumed_wakers_equal_witness :
  Waker.consumed (fst (Waker.Wakeup (Waker.ctor (Target 1)))) /\
  Waker.consumed (snd (Waker.move_ctor (Waker.ctor (Target 2)))) /\
  Waker.eqb (fst (Waker.Wakeup (Waker.ctor (Target 1))))
            (snd (Waker.move_ctor (Waker.ctor (Target 2)))) = true.
Proof.
  split; [constructor | split; [constructor |]].
  apply (C10_consumed_wakers_equal
           (a := fst (Waker.Wakeup (Waker.ctor (Target 1))))
           (b := snd (Waker.move_ctor (Waker.ctor (Target 2)))));
    constructor.
Defined.

(** ** The current activity *)

Lemma run_block_balanced (b : Activity.block) :
  forall g : Activity.ptr, snd (Activity.run_block b g) = g.
Proof.
  induction b as [|rest IH|a body IHbody rest IHrest]; intro g; simpl.
  - reflexivity.
  - specialize (IH g). now destruct (Activity.run_block rest g).
  - specialize (IHbody a). destruct (Activity.run_block body a) as [s1 g2].
    unfold Activity.ScopedActivity.dtor. simpl.
    specialize (IHrest g). now destruct (Activity.run_block rest g).
Qed.

Lemma last_cons_default {A : Type} (l : list A) :
  forall a g : A, last (a :: l) g = last l a.
Proof.
  induction l as [|b l IH]; intros a g; [reflexivity|].
  change (last (a :: b :: l) g) with (last (b :: l) g).
  now rewrite !IH.
Qed.

Lemma enter_all_current (l : list Activity.ptr) :
  forall stack g, snd (Activity.enter_all l stack g) = last l g.
Proof.
  induction l as [|a l IH]; intros stack g; [reflexivity|].
  cbn [Activity.enter_all Activity.ScopedActivity.ctor].
  now rewrite IH, last_cons_default.
Qed.

Lemma leave_all_enter_all (l : list Activity.ptr) :
  forall stack g,
    Activity.leave_all (fst (Activity.enter_all l stack g))
                       (snd (Activity.enter_all l stack g))
    = tl (rev (g :: l)) ++ Activity.leave_all stack g.
Proof.
  induction l as [|a l IH]; intros stack g.
  - reflexivity.
  - cbn [Activity.enter_all Activity.ScopedActivity.ctor]. rewrite IH.
    cbn [Activity.leave_all Activity.ScopedActivity.dtor
         Activity.ScopedActivity.prior_activity_].
    change (rev (g :: a :: l)) with (rev (a :: l) ++ [g]).
    destruct (rev (a :: l)) as [|x xs] eqn:E.
    + apply (f_equal (@length _)) in E. rewrite length_rev in E. discriminate.
    + simpl. now rewrite <- app_assoc.
Qed.

(** C8: the constructor of [ScopedActivity] saves the prior thread-local
    [p] and installs [a]; the destructor restores [p] whatever the
    thread-local is by then; code made of scopes and reads leaves the
    thread-local as it found it, the body of a scope running under [a] and
    the code after it under the prior value; and scopes opened one inside
    the other for [l] from [p] make the last of [l] current and, closed
    innermost first, restore the earlier values in reverse order, ending
    with [p]. *)
Theorem C8_scoped_activity_restores :
  (forall p a : Activity.ptr,
      Activity.ScopedActivity.prior_activity_
        (fst (Activity.ScopedActivity.ctor a p)) = p /\
      Activity.current (snd (Activity.ScopedActivity.ctor a p)) = a /\
      (forall g' : Activity.ptr,
          Activity.ScopedActivity.dtor
            (fst (Activity.ScopedActivity.ctor a p)) g' = p)) /\
  (forall (b : Activity.block) (g : Activity.ptr),
      snd (Activity.run_block b g) = g) /\
  (forall (a : Activity.ptr) (body rest : Activity.block) (g : Activity.ptr),
      fst (Activity.run_block (Activity.Scoped a body rest) g)
      = fst (Activity.run_block body a) ++ fst (Activity.run_block rest g)) /\
  (forall (l : list Activity.ptr) (p : Activity.ptr),
      snd (Activity.enter_all l [] p) = last l p /\
      Activity.leave_all (fst (Activity.enter_all l [] p))
                         (snd (Activity.enter_all l [] p))
      = tl (rev (p :: l))).
Proof.
  split; [|split; [|split]].
  - intros p a. repeat split.
  - intros b g. apply run_block_balanced.
  - intros a body rest g. simpl.
    destruct (Activity.run_block body a) as [s1 g2].
    unfold Activity.ScopedActivity.dtor. simpl.
    now destruct (Activity.run_block rest g).
  - intros l p. split.
    + apply enter_all_current.
    + rewrite leave_all_enter_all. simpl. apply app_nil_r.
Qed.

(** ** Executions of one activity

    The promise state is the number of polls so far, results are
    [option nat] with [None] for [absl::CancelledError()], the activity is
    at address 7 and no thread has a current activity when it is made. *)

Local Notation "'exec' poll evs" :=
  (PromiseActivity.execution poll (@Some nat) (@None nat) 7 5
     (fun _ : Tid => @None nat) 0 0 evs)
  (at level 10, poll at level 9, evs at level 9, only parsing).

(** The promise is pending at every poll. *)
Local Notation "'always_pending'" :=
  (fun _ : nat => (0, @nil (Tid * Op), @Pending nat)) (only parsing).

(** The first poll takes an owning waker and is pending, the second is
    ready with 99. *)
Local Notation "'ready_second'" :=
  (fun n : nat =>
     match n with
     | 0 => (1, [(0, OpMakeOwningWaker)], @Pending nat)
     | _ => (2, [], Ready 99)
     end) (only parsing).

(** The promise is ready with 42 at its first poll: the constructor calls
    back, the scheduler is not involved. *)
Example immediate_ready :
  match exec (fun _ : nat => (0, @nil (Tid * Op), Ready 42)) [] with
  | PromiseActivity.Ok _ w =>
      PromiseActivity.on_done_calls w = [Some 42] /\
      PromiseActivity.polls w = 1 /\
      PromiseActivity.scheduled w = 0 /\
      PromiseActivity.misused w = false
  | _ => False
  end.
Proof. vm_compute. repeat split. Qed.

(** A waker taken at the first poll is fired from thread 1: one request
    reaches the scheduler; when it runs, the second poll is ready and the
    callback gets 99. *)
Example external_wake :
  match exec ready_second [PromiseActivity.EvOp 1 OpWakeup] with
  | PromiseActivity.Ok _ w =>
      PromiseActivity.scheduled w = 1 /\
      PromiseActivity.wakeup_scheduled_ w = true /\
      PromiseActivity.on_done_calls w = []
  | _ => False
  end /\
  match exec ready_second
             [PromiseActivity.EvOp 1 OpWakeup;
              PromiseActivity.EvRunScheduledWakeup 2] with
  | PromiseActivity.Ok _ w =>
      PromiseActivity.scheduled w = 0 /\
      PromiseActivity.wakeup_scheduled_ w = false /\
      PromiseActivity.on_done_calls w = [Some 99] /\
      PromiseActivity.refs_ w = 1%Z /\
      PromiseActivity.misused w = false
  | _ => False
  end.
Proof. vm_compute. repeat split. Qed.

(** The promise asks for an immediate repoll at its first poll and is
    ready with 7 at the second: the constructor polls twice and calls
    back. *)
Example self_wake_during_poll :
  match exec (fun n : nat =>
                match n with
                | 0 => (1, [(0, OpForceImmediateRepoll)], @Pending nat)
                | _ => (2, [], Ready 7)
                end) [] with
  | PromiseActivity.Ok _ w =>
      PromiseActivity.on_done_calls w = [Some 7] /\
      PromiseActivity.polls w = 2 /\
      PromiseActivity.scheduled w = 0
  | _ => False
  end.
Proof. vm_compute. repeat split. Qed.

(** The promise cancels its activity while it is polled: the callback gets
    the cancellation, the promise is not polled again, and the destructor
    finds the activity done when the ActivityPtr is released. *)
Example cancel_during_poll :
  match exec (fun n : nat => (S n, [(0, OpCancel)], @Pending nat))
             [PromiseActivity.EvOp 0 OpOrphan] with
  | PromiseActivity.Ok _ w =>
      PromiseActivity.on_done_calls w = [None] /\
      PromiseActivity.polls w = 1 /\
      PromiseActivity.deleted w = true /\
      PromiseActivity.misused w = false
  | _ => False
  end.
Proof. vm_compute. repeat split. Qed.

(** Thread 1 fires a waker, thread 0 releases the ActivityPtr before the
    scheduled wakeup runs: one callback, with the cancellation; the
    scheduled wakeup polls nothing and releases the last reference. *)
Example external_cancel_with_pending_wake :
  match exec ready_second
             [PromiseActivity.EvOp 1 OpWakeup;
              PromiseActivity.EvOp 0 OpOrphan] with
  | PromiseActivity.Ok _ w =>
      PromiseActivity.on_done_calls w = [None] /\
      PromiseActivity.deleted w = false /\
      PromiseActivity.refs_ w = 1%Z
  | _ => False
  end /\
  match exec ready_second
             [PromiseActivity.EvOp 1 OpWakeup;
              PromiseActivity.EvOp 0 OpOrphan;
              PromiseActivity.EvRunScheduledWakeup 2] with
  | PromiseActivity.Ok _ w =>
      PromiseActivity.on_done_calls w = [None] /\
      PromiseActivity.polls w = 1 /\
      PromiseActivity.deleted w = true /\
      PromiseActivity.misused w = false
  | _ => False
  end.
Proof. vm_compute. repeat split. Qed.

(** Releasing the ActivityPtr from inside the poll that a scheduled wakeup
    runs is within the contract: the wakeup still holds its reference, the
    loop ends with the cancellation, and the object is deleted, done, when
    the wakeup completes.  The same release from a bare [Step] deletes the
    object while it is being polled. *)
Example orphan_during_poll :
  match exec (fun n : nat =>
                match n with
                | 0 => (1, [(0, OpMakeOwningWaker)], @Pending nat)
                | _ => (2, [(2, OpOrphan)], Pending)
                end)
             [PromiseActivity.EvOp 1 OpWakeup;
              PromiseActivity.EvRunScheduledWakeup 2] with
  | PromiseActivity.Ok _ w =>
      PromiseActivity.on_done_calls w = [None] /\
      PromiseActivity.deleted w = true /\
      PromiseActivity.misused w = false
  | _ => False
  end /\
  match exec (fun n : nat =>
                match n with
                | 0 => (1, [], @Pending nat)
                | _ => (2, [(2, OpOrphan)], Pending)
                end)
             [PromiseActivity.EvStep 2] with
  | PromiseActivity.Fail AssertDone w => PromiseActivity.misused w = true
  | _ => False
  end.
Proof. vm_compute. repeat split. Qed.

(** C1, as stated, fails: an activity whose promise stays pending and that
    is woken twice and stepped, but not cancelled, has been polled three
    times and its callback has not been invoked. *)
Lemma C1_pending_activity_not_called_back :
  match exec always_pending
             [PromiseActivity.EvOp 1 OpForceWakeup;
              PromiseActivity.EvOp 2 OpForceWakeup;
              PromiseActivity.EvRunScheduledWakeup 3;
              PromiseActivity.EvStep 3] with
  | PromiseActivity.Ok _ w =>
      PromiseActivity.on_done_calls w = [] /\
      PromiseActivity.done_ w = false /\
      PromiseActivity.polls w = 3
  | _ => False
  end.
Proof. vm_compute. repeat split. Qed.

(** The amended C1 at an execution that is woken, orphaned and then runs
    its scheduled wakeup: one callback. *)
Lemma C1_on_done_at_most_once_witness :
  (forall t' : Tid, (fun _ : Tid => @None nat) t' <> Some 7) /\
  match exec ready_second
             [PromiseActivity.EvOp 1 OpWakeup;
              PromiseActivity.EvOp 0 OpOrphan;
              PromiseActivity.EvRunScheduledWakeup 2] with
  | PromiseActivity.Ok _ w => length (PromiseActivity.on_done_calls w) = 1
  | _ => False
  end.
Proof.
  assert (Htls : forall t' : Tid, (fun _ : Tid => @None nat) t' <> Some 7)
    by (intros t' H; discriminate H).
  split; [exact Htls|].
  pose proof (proj1 (@PromiseActivity.C1_on_done_at_most_once
                       nat nat ready_second (option nat) (@Some nat)
                       (@None nat) 7)
                5 (fun _ : Tid => @None nat) 0 0
                [PromiseActivity.EvOp 1 OpWakeup;
                 PromiseActivity.EvOp 0 OpOrphan;
                 PromiseActivity.EvRunScheduledWakeup 2] Htls) as (_ & _ & H).
  destruct (exec ready_second _) as [[] w|f w|w] eqn:E;
    try (vm_compute in E; discriminate E).
  apply (proj1 (proj2 (H w eq_refl))). reflexivity.
Defined.

(** C7 at the same execution: the contract is kept, the object is deleted
    and it is done. *)
Lemma C7_destructor_finds_done_witness :
  (forall t' : Tid, (fun _ : Tid => @None nat) t' <> Some 7) /\
  PromiseActivity.misused
    (PromiseActivity.final
       (exec ready_second
             [PromiseActivity.EvOp 1 OpWakeup;
              PromiseActivity.EvOp 0 OpOrphan;
              PromiseActivity.EvRunScheduledWakeup 2])) = false /\
  PromiseActivity.deleted
    (PromiseActivity.final
       (exec ready_second
             [PromiseActivity.EvOp 1 OpWakeup;
              PromiseActivity.EvOp 0 OpOrphan;
              PromiseActivity.EvRunScheduledWakeup 2])) = true /\
  PromiseActivity.done_
    (PromiseActivity.final
       (exec ready_second
             [PromiseActivity.EvOp 1 OpWakeup;
              PromiseActivity.EvOp 0 OpOrphan;
              PromiseActivity.EvRunScheduledWakeup 2])) = true.
Proof.
  assert (Htls : forall t' : Tid, (fun _ : Tid => @None nat) t' <> Some 7)
    by (intros t' H; discriminate H).
  split; [exact Htls|].
  split; [vm_compute; reflexivity|].
  split; [vm_compute; reflexivity|].
  apply (@PromiseActivity.C7_destructor_finds_done
           nat nat ready_second (option nat) (@Some nat) (@None nat) 7
           5 (fun _ : Tid => @None nat) 0 0
           [PromiseActivity.EvOp 1 OpWakeup;
            PromiseActivity.EvOp 0 OpOrphan;
            PromiseActivity.EvRunScheduledWakeup 2] Htls).
  - vm_compute. reflexivity.
  - vm_compute. reflexivity.
Defined.

(** C4 at an execution in which two wakers are fired in a row: the
    scheduler holds one request. *)
Lemma C4_wakeup_scheduled_gates_one_request_witness :
  (forall t' : Tid, (fun _ : Tid => @None nat) t' <> Some 7) /\
  PromiseActivity.scheduled
    (PromiseActivity.final
       (exec ready_second
             [PromiseActivity.EvOp 1 OpMakeOwningWaker;
              PromiseActivity.EvOp 1 OpWakeup;
              PromiseActivity.EvOp 2 OpWakeup])) <= 1.
Proof.
  assert (Htls : forall t' : Tid, (fun _ : Tid => @None nat) t' <> Some 7)
    by (intros t' H; discriminate H).
  split; [exact Htls|].
  apply (proj2 (proj2 (@PromiseActivity.C4_wakeup_scheduled_gates_one_request
                         nat nat ready_second (option nat) (@Some nat)
                         (@None nat) 7))
           5 (fun _ : Tid => @None nat) 0 0
           [PromiseActivity.EvOp 1 OpMakeOwningWaker;
            PromiseActivity.EvOp 1 OpWakeup;
            PromiseActivity.EvOp 2 OpWakeup] Htls).
Defined.

(** The world in which thread 0 polls the promise from the constructor. *)
Local Notation "'first_poll'" :=
  (PromiseActivity.mkWorld (ResultType := option nat)
     (Some 0) 1%Z kNone false false (Some 0)
     (fun t : Tid => if Nat.eqb t 0 then Some 7 else None)
     false [] 0 0 0 Constructing false) (only parsing).

(** At every poll the promise asks for a repoll and then for
    cancellation, and is pending. *)
Local Notation "'repoll_then_cancel'" :=
  (fun n : nat =>
     (S n, [(0, OpForceImmediateRepoll); (0, OpCancel)], @Pending nat))
  (only parsing).

Lemma first_poll_polling :
  PromiseActivity.polling_inv 7 0 0%Z false first_poll.
Proof.
  unfold PromiseActivity.polling_inv, PromiseActivity.counted,
    PromiseActivity.holders. cbn.
  repeat split; try discriminate; try reflexivity; try lia.
  - destruct t'; [reflexivity|discriminate].
  - intros ->. reflexivity.
Qed.

(** C2 at the first poll of a promise that records a repoll and a
    cancellation: the loop returns the cancellation. *)
Lemma C2_StepLoop_poll_cases_witness :
  PromiseActivity.polling_inv 7 0 0%Z false first_poll /\
  PromiseActivity.call_promise repoll_then_cancel (@None nat) 7 first_poll
  = PromiseActivity.Ok Pending
      (PromiseActivity.final
         (PromiseActivity.call_promise repoll_then_cancel (@None nat) 7 first_poll)) /\
  PromiseActivity.StepLoop_while repoll_then_cancel (@Some nat) (@None nat) 7
    3 first_poll
  = PromiseActivity.Ok (Some None)
      (PromiseActivity.set_promise None
         (PromiseActivity.set_done true
            (PromiseActivity.set_action kNone
               (PromiseActivity.final
                  (PromiseActivity.call_promise repoll_then_cancel (@None nat) 7
                     first_poll))))).
Proof.
  split; [exact first_poll_polling|].
  assert (Hcall :
    PromiseActivity.call_promise repoll_then_cancel (@None nat) 7 first_poll
    = PromiseActivity.Ok Pending
        (PromiseActivity.final
           (PromiseActivity.call_promise repoll_then_cancel (@None nat) 7 first_poll)))
    by reflexivity.
  split; [exact Hcall|].
  destruct (@PromiseActivity.C2_StepLoop_poll_cases
              nat nat repoll_then_cancel (option nat) (@Some nat) (@None nat)
              7 0 0%Z false 2 first_poll _ Pending
              first_poll_polling Hcall)
    as (_ & _ & _ & _ & Hstep & _).
  exact Hstep.
Defined.

(** C3 at the same poll: [kCancel] is sampled and the promise has been
    polled once when the loop returns. *)
Lemma C3_cancel_dominates_wakeup_witness :
  PromiseActivity.polling_inv 7 0 0%Z false first_poll /\
  PromiseActivity.action_during_run_
    (PromiseActivity.final
       (PromiseActivity.call_promise repoll_then_cancel (@None nat) 7 first_poll))
  = kCancel /\
  PromiseActivity.polls
    (PromiseActivity.final
       (PromiseActivity.StepLoop_while repoll_then_cancel (@Some nat)
          (@None nat) 7 3 first_poll)) = 1.
Proof.
  split; [exact first_poll_polling|].
  destruct (@PromiseActivity.C3_cancel_dominates_wakeup
              nat nat repoll_then_cancel (option nat) (@Some nat) (@None nat)
              7 0 0%Z false 2 first_poll
              (PromiseActivity.final
                 (PromiseActivity.call_promise repoll_then_cancel (@None nat) 7
                    first_poll))
              0 1 [(0, OpForceImmediateRepoll); (0, OpCancel)]
              first_poll_polling eq_refl eq_refl
              (or_intror (or_intror (or_introl eq_refl)))
              (or_intror (or_introl eq_refl)) eq_refl)
    as (_ & _ & Hact & Hstep & Hpolls & _).
  split; [exact Hact|].
  rewrite Hstep. exact Hpolls.
Defined.

(** ** Further properties of the handles *)

Lemma Waker_wakeups_sentinel (n : nat) :
  signals (Waker.lifetime (repeat Waker.UseWakeup n)
             (Waker.mk activity_detail.unwakeable)) = [].
Proof.
  apply signals_sentinel, Waker_sentinel_lifetime. reflexivity.
Qed.

(** X1: a Waker that holds an object and is only woken and destroyed makes
    exactly one call that reaches the object: [Wakeup] if it was woken at
    least once, [Drop] from its destructor otherwise. *)
Theorem X1_waker_consumes_exactly_once :
  forall (a : nat) (n : nat),
    signals (Waker.lifetime (repeat Waker.UseWakeup n) (Waker.ctor (Target a)))
    = [(a, if Nat.eqb n 0 then M_Drop else M_Wakeup)].
Proof.
  intros a [|n]; [reflexivity|].
  cbn [repeat]. rewrite Waker_lifetime_cons, signals_app.
  unfold Waker.apply_use, Waker.Wakeup, Waker.Take, Waker.ctor, std_exchange.
  cbn [Waker.wakeable_ fst snd].
  rewrite Waker_wakeups_sentinel. reflexivity.
Qed.


Lemma consume_cons (p q : Wakeable) (ps : list Wakeable) :
  AtomicWaker.consume (p :: q :: ps) = (p, M_Wakeup) :: AtomicWaker.consume (q :: ps).
Proof. reflexivity. Qed.

Lemma AtomicWaker_apply_op_signals (o : AtomicWaker.op) (s : AtomicWaker.t) :
  signals (snd (AtomicWaker.apply_op o s))
  = signals [(AtomicWaker.wakeable_ s, M_Wakeup)].
Proof. destruct o as [[p]|], s as [q]; reflexivity. Qed.

Lemma AtomicWaker_ops_then_dtor (os : list AtomicWaker.op) :
  forall s : AtomicWaker.t,
    signals (snd (AtomicWaker.apply_ops os s)
             ++ AtomicWaker.dtor (fst (AtomicWaker.apply_ops os s)))
    = signals (AtomicWaker.consume
                 (AtomicWaker.wakeable_ s :: map AtomicWaker.stored os)).
Proof.
  induction os as [|o os IH]; intro s.
  - reflexivity.
  - cbn [AtomicWaker.apply_ops map].
    pose proof (AtomicWaker_apply_op_signals o s) as Hc.
    destruct (AtomicWaker_apply_op_spec o s) as [Hs _].
    destruct (AtomicWaker.apply_op o s) as [s1 c1]. cbn [fst snd] in *.
    specialize (IH s1).
    destruct (AtomicWaker.apply_ops os s1) as [s2 c2]. cbn [fst snd] in *.
    rewrite consume_cons, <- app_assoc, signals_app, Hc, IH, Hs.
    change ((AtomicWaker.wakeable_ s, M_Wakeup)
            :: AtomicWaker.consume (AtomicWaker.stored o :: map AtomicWaker.stored os))
      with ([(AtomicWaker.wakeable_ s, M_Wakeup)]
            ++ AtomicWaker.consume (AtomicWaker.stored o :: map AtomicWaker.stored os)).
    now rewrite signals_app.
Qed.

(** X3: over the whole life of an AtomicWaker (made from a Waker, any
    [Set] and [Wakeup], destroyed) the calls that reach objects are, in
    order, one [Wakeup] for every pointer that was stored and replaced and
    one [Drop] for the last occupant: every reference put into the slot is
    consumed exactly once. *)
Theorem X3_atomic_waker_consumes_each_once :
  forall (waker : Waker.t) (os : list AtomicWaker.op),
    signals (AtomicWaker.lifetime waker os)
    = signals (AtomicWaker.consume
                 (Waker.wakeable_ waker :: map AtomicWaker.stored os)).
Proof.
  intros [p] os.
  unfold AtomicWaker.lifetime, AtomicWaker.of_waker, Waker.Take, std_exchange,
    AtomicWaker.ctor, Waker.dtor.
  cbn [Waker.wakeable_].
  pose proof (AtomicWaker_ops_then_dtor os (AtomicWaker.mk p)) as H.
  destruct (AtomicWaker.apply_ops os (AtomicWaker.mk p)) as [s' cs].
  cbn [fst snd AtomicWaker.wakeable_] in H.
  change ([(activity_detail.unwakeable, M_Drop)] ++ cs ++ AtomicWaker.dtor s')
    with ((activity_detail.unwakeable, M_Drop) :: (cs ++ AtomicWaker.dtor s')).
  exact H.
Qed.

Lemma AtomicWaker_apply_ops_occupant (os : list AtomicWaker.op) :
  forall s : AtomicWaker.t,
    AtomicWaker.wakeable_ (fst (AtomicWaker.apply_ops os s))
    = last (map AtomicWaker.stored os) (AtomicWaker.wakeable_ s).
Proof.
  induction os as [|o os IH]; intros s; [reflexivity|].
  cbn [AtomicWaker.apply_ops map].
  destruct (AtomicWaker_apply_op_spec o s) as [Hs _].
  destruct (AtomicWaker.apply_op o s) as [s1 c1]. cbn [fst] in Hs.
  specialize (IH s1).
  destruct (AtomicWaker.apply_ops os s1) as [s2 c2]. cbn [fst] in *.
  now rewrite IH, Hs, last_cons_default.
Qed.

(** X4: [Armed()] tells whether [Wakeup()] reaches an object: on a slot
    that is not armed [Wakeup()] signals nothing, on an armed slot it
    signals the occupant once; after [Wakeup()] the slot is not armed,
    whatever it held, and after [Set(w)] it is armed exactly when [w] held
    an object. *)
Theorem X4_armed_predicts_wakeup :
  forall s : AtomicWaker.t,
    (AtomicWaker.Armed s = false ->
     signals (snd (AtomicWaker.Wakeup s)) = []) /\
    (AtomicWaker.Armed s = true ->
     exists a, AtomicWaker.wakeable_ s = Target a /\
               signals (snd (AtomicWaker.Wakeup s)) = [(a, M_Wakeup)]) /\
    AtomicWaker.Armed (fst (AtomicWaker.Wakeup s)) = false /\
    (forall w : Waker.t,
        AtomicWaker.Armed (fst (AtomicWaker.Set_ s w))
        = negb (Wakeable_eqb (Waker.wakeable_ w) activity_detail.unwakeable)) /\
    (forall os : list AtomicWaker.op,
        AtomicWaker.Armed (fst (AtomicWaker.apply_ops os s))
        = negb (Wakeable_eqb
                  (last (map AtomicWaker.stored os) (AtomicWaker.wakeable_ s))
                  activity_detail.unwakeable)).
Proof.
  intros s. split; [|split; [|split; [|split]]].
  - destruct s as [[|a]]; [reflexivity|discriminate].
  - destruct s as [[|a]]; [discriminate|]. intros _. now exists a.
  - now destruct s.
  - intros [p]. now destruct s.
  - intros os. unfold AtomicWaker.Armed.
    now rewrite AtomicWaker_apply_ops_occupant.
Qed.

(** X15: [Waker::operator==] compares the held pointers: it is reflexive,
    symmetric and transitive, holds exactly when the two Wakers hold the
    same pointer, and Wakers that compare equal have the same
    [AbslHashValue] under every hash state and [H::combine]. *)
Theorem X15_waker_equality_and_hash :
  (forall w : Waker.t, Waker.eqb w w = true) /\
  (forall w v : Waker.t, Waker.eqb w v = Waker.eqb v w) /\
  (forall u v w : Waker.t,
      Waker.eqb u v = true -> Waker.eqb v w = true -> Waker.eqb u w = true) /\
  (forall w v : Waker.t,
      Waker.eqb w v = true <-> Waker.wakeable_ w = Waker.wakeable_ v) /\
  (forall (H : Type) (combine : H -> Wakeable -> H) (h : H) (w v : Waker.t),
      Waker.eqb w v = true ->
      Waker.AbslHashValue combine h w = Waker.AbslHashValue combine h v).
Proof.
  unfold Waker.eqb, Waker.AbslHashValue.
  split; [|split; [|split; [|split]]].
  - intros w. apply Wakeable_eqb_refl.
  - intros [p] [q]. cbn [Waker.wakeable_].
    destruct (Wakeable_eqb p q) eqn:E.
    + apply Wakeable_eqb_eq in E. subst q. symmetry. apply Wakeable_eqb_refl.
    + destruct (Wakeable_eqb q p) eqn:E'; [|reflexivity].
      apply Wakeable_eqb_eq in E'. subst q.
      now rewrite Wakeable_eqb_refl in E.
  - intros u v w Huv Hvw. apply Wakeable_eqb_eq in Huv, Hvw.
    apply Wakeable_eqb_eq. congruence.
  - intros w v. apply Wakeable_eqb_eq.
  - intros H combine h w v E. apply Wakeable_eqb_eq in E. now rewrite E.
Qed.

(** ** Further properties of the activity, at concrete executions *)

(** X6 at the first poll: an owning Waker taken and dropped unused leaves
    the activity as it was. *)
Lemma X6_owning_waker_round_trip_witness :
  (1 <= PromiseActivity.refs_ first_poll < 2 ^ 32)%Z /\
  PromiseActivity.bind (PromiseActivity.MakeOwningWaker 7)
    (fun wk : Waker.t =>
       PromiseActivity.deliver_all 7 0
         (Waker.lifetime (repeat Waker.UseWakeup 0) wk))
    first_poll
  = PromiseActivity.Ok tt first_poll.
Proof.
  assert (H : (1 <= PromiseActivity.refs_ first_poll < 2 ^ 32)%Z)
    by (cbn; lia).
  exact (conj H (@PromiseActivity.X6_owning_waker_round_trip
                   nat (option nat) 7 0 0 first_poll H)).
Defined.

(** X7 at the first poll, called by the polling thread. *)
Lemma X7_ForceWakeup_cases_witness :
  (1 <= PromiseActivity.refs_ first_poll < 2 ^ 32)%Z /\
  Activity.is_current 7 (PromiseActivity.g_current_activity_ first_poll 0)
  = true /\
  PromiseActivity.mu_ first_poll = Some 0 /\
  PromiseActivity.ForceWakeup 7 0 first_poll
  = PromiseActivity.ForceImmediateRepoll 0 first_poll.
Proof.
  assert (H : (1 <= PromiseActivity.refs_ first_poll < 2 ^ 32)%Z)
    by (cbn; lia).
  destruct (@PromiseActivity.X7_ForceWakeup_cases
              nat (option nat) 7 0 first_poll H) as [Ha _].
  exact (conj H (conj eq_refl (conj eq_refl (proj1 (Ha eq_refl eq_refl))))).
Defined.

(** An owning Waker is taken at the first poll and fired from another
    thread; the scheduler runs the wakeup, whose poll is ready. *)
Local Notation "'woken_run'" :=
  [PromiseActivity.EvOp 1 OpWakeup; PromiseActivity.EvRunScheduledWakeup 2]
  (only parsing).

(** The same, with the ActivityPtr released before the wakeup runs. *)
Local Notation "'orphaned_run'" :=
  [PromiseActivity.EvOp 1 OpWakeup; PromiseActivity.EvOp 0 OpOrphan;
   PromiseActivity.EvRunScheduledWakeup 2] (only parsing).

Local Notation "'no_current'" :=
  (forall t' : Tid, (fun _ : Tid => @None nat) t' <> Some 7) (only parsing).

(** X8 at an execution that stops: [ForceImmediateRepoll] called outside
    a poll fails [mu_.AssertHeld()], which is none of the three checks. *)
Lemma X8_internal_checks_never_fire_witness :
  no_current /\
  match exec always_pending
             [PromiseActivity.EvOp 1 OpForceImmediateRepoll] with
  | PromiseActivity.Fail f _ =>
      f = AssertHeld /\
      f <> AssertIsCurrent /\ f <> AssertNotDone /\ f <> NoPromise
  | _ => False
  end.
Proof.
  assert (Htls : no_current) by (intros t' H; discriminate H).
  split; [exact Htls|].
  pose proof (@PromiseActivity.X8_internal_checks_never_fire
                nat nat always_pending (option nat) (@Some nat) (@None nat) 7
                (fun _ : Tid => @None nat) Htls 5 0 0
                [PromiseActivity.EvOp 1 OpForceImmediateRepoll]) as H.
  destruct (exec always_pending _) as [[] w|f w|w] eqn:E;
    try (vm_compute in E; discriminate E).
  split; [|exact H]. vm_compute in E. now injection E.
Defined.

(** X9 at the woken execution. *)
Lemma X9_returns_unlocked_and_restored_witness :
  no_current /\
  exec ready_second woken_run
  = PromiseActivity.Ok tt (PromiseActivity.final (exec ready_second woken_run)) /\
  PromiseActivity.mu_ (PromiseActivity.final (exec ready_second woken_run))
  = None /\
  forall t' : Tid,
    PromiseActivity.g_current_activity_
      (PromiseActivity.final (exec ready_second woken_run)) t' = None.
Proof.
  assert (Htls : no_current) by (intros t' H; discriminate H).
  assert (E : exec ready_second woken_run
              = PromiseActivity.Ok tt
                  (PromiseActivity.final (exec ready_second woken_run)))
    by (vm_compute; reflexivity).
  exact (conj Htls (conj E
           (@PromiseActivity.X9_returns_unlocked_and_restored
              nat nat ready_second (option nat) (@Some nat) (@None nat) 7
              (fun _ : Tid => @None nat) Htls 5 0 0 woken_run _ E))).
Defined.

(** X10 at the woken execution: it is done and the promise is gone. *)
Lemma X10_done_iff_promise_destroyed_witness :
  no_current /\
  exec ready_second woken_run
  = PromiseActivity.Ok tt (PromiseActivity.final (exec ready_second woken_run)) /\
  PromiseActivity.done_ (PromiseActivity.final (exec ready_second woken_run))
  = true /\
  PromiseActivity.promise_holder_
    (PromiseActivity.final (exec ready_second woken_run)) = None.
Proof.
  assert (Htls : no_current) by (intros t' H; discriminate H).
  assert (E : exec ready_second woken_run
              = PromiseActivity.Ok tt
                  (PromiseActivity.final (exec ready_second woken_run)))
    by (vm_compute; reflexivity).
  assert (Hd : PromiseActivity.done_
                 (PromiseActivity.final (exec ready_second woken_run)) = true)
    by (vm_compute; reflexivity).
  exact (conj Htls (conj E (conj Hd
           (proj1 (@PromiseActivity.X10_done_iff_promise_destroyed
                     nat nat ready_second (option nat) (@Some nat) (@None nat)
                     7 (fun _ : Tid => @None nat) Htls 5 0 0 woken_run _ E)
                  Hd)))).
Defined.


(** X12 at the woken execution: the ActivityPtr holds the one reference. *)
Lemma X12_refs_counts_holders_witness :
  no_current /\
  exec ready_second woken_run
  = PromiseActivity.Ok tt (PromiseActivity.final (exec ready_second woken_run)) /\
  PromiseActivity.misused
    (PromiseActivity.final (exec ready_second woken_run)) = false /\
  PromiseActivity.refs_ (PromiseActivity.final (exec ready_second woken_run))
  = PromiseActivity.holders
      (PromiseActivity.final (exec ready_second woken_run)) /\
  (0 <= PromiseActivity.refs_
          (PromiseActivity.final (exec ready_second woken_run)) < 2 ^ 32)%Z.
Proof.
  assert (Htls : no_current) by (intros t' H; discriminate H).
  assert (E : exec ready_second woken_run
              = PromiseActivity.Ok tt
                  (PromiseActivity.final (exec ready_second woken_run)))
    by (vm_compute; reflexivity).
  assert (Hm : PromiseActivity.misused
                 (PromiseActivity.final (exec ready_second woken_run)) = false)
    by (vm_compute; reflexivity).
  exact (conj Htls (conj E (conj Hm
           (@PromiseActivity.X12_refs_counts_holders
              nat nat ready_second (option nat) (@Some nat) (@None nat) 7
              5 (fun _ : Tid => @None nat) 0 0 woken_run _ Htls E Hm)))).
Defined.

(** X13 at the orphaned execution: no reference is left and the object
    has been deleted. *)
Lemma X13_deleted_iff_unreferenced_witness :
  no_current /\
  exec ready_second orphaned_run
  = PromiseActivity.Ok tt
      (PromiseActivity.final (exec ready_second orphaned_run)) /\
  PromiseActivity.misused
    (PromiseActivity.final (exec ready_second orphaned_run)) = false /\
  PromiseActivity.holders
    (PromiseActivity.final (exec ready_second orphaned_run)) = 0%Z /\
  PromiseActivity.deleted
    (PromiseActivity.final (exec ready_second orphaned_run)) = true.
Proof.
  assert (Htls : no_current) by (intros t' H; discriminate H).
  assert (E : exec ready_second orphaned_run
              = PromiseActivity.Ok tt
                  (PromiseActivity.final (exec ready_second orphaned_run)))
    by (vm_compute; reflexivity).
  assert (Hm : PromiseActivity.misused
                 (PromiseActivity.final (exec ready_second orphaned_run))
               = false)
    by (vm_compute; reflexivity).
  assert (Hh : PromiseActivity.holders
                 (PromiseActivity.final (exec ready_second orphaned_run))
               = 0%Z)
    by (vm_compute; reflexivity).
  exact (conj Htls (conj E (conj Hm (conj Hh
           (proj2 (@PromiseActivity.X13_deleted_iff_unreferenced
                     nat nat ready_second (option nat) (@Some nat) (@None nat)
                     7 5 (fun _ : Tid => @None nat) 0 0 orphaned_run _
                     Htls E Hm)
                  Hh))))).
Defined.

(** X14 at a pending activity: the constructor has polled once, and a
    scheduled wakeup that returns polls again. *)
Lemma X14_step_polls_when_not_done_witness :
  no_current /\
  exec always_pending [PromiseActivity.EvOp 1 OpForceWakeup]
  = PromiseActivity.Ok tt
      (PromiseActivity.final
         (exec always_pending [PromiseActivity.EvOp 1 OpForceWakeup])) /\
  1 <= PromiseActivity.polls
         (PromiseActivity.final
            (exec always_pending [PromiseActivity.EvOp 1 OpForceWakeup])) /\
  PromiseActivity.polls
    (PromiseActivity.final
       (exec always_pending [PromiseActivity.EvOp 1 OpForceWakeup]))
  < PromiseActivity.polls
      (PromiseActivity.final
         (exec always_pending
               [PromiseActivity.EvOp 1 OpForceWakeup;
                PromiseActivity.EvRunScheduledWakeup 2])).
Proof.
  assert (Htls : no_current) by (intros t' H; discriminate H).
  assert (E : exec always_pending [PromiseActivity.EvOp 1 OpForceWakeup]
              = PromiseActivity.Ok tt
                  (PromiseActivity.final
                     (exec always_pending
                           [PromiseActivity.EvOp 1 OpForceWakeup])))
    by (vm_compute; reflexivity).
  destruct (@PromiseActivity.X14_step_polls_when_not_done
              nat nat always_pending (option nat) (@Some nat) (@None nat) 7
              (fun _ : Tid => @None nat) Htls 5 0 0
              [PromiseActivity.EvOp 1 OpForceWakeup] _ E) as [H1 H2].
  split; [exact Htls|]. split; [exact E|]. split; [exact H1|].
  refine (proj2 (H2 (PromiseActivity.EvRunScheduledWakeup 2)
                    (PromiseActivity.final
                       (exec always_pending
                             [PromiseActivity.EvOp 1 OpForceWakeup;
                              PromiseActivity.EvRunScheduledWakeup 2]))
                    _) _);
    vm_compute; reflexivity.
Defined.
